(** * repnum: number re-presentation utility (src/repnum.c)

    A shallow embedding of the conversion routines of [repnum.c] together
    with the part of the C library they rely on, and the properties of the
    specification that concern them.

    Conventions of the embedding:
    - [unsigned long long] and [size_t] are 64-bit: values of [Z] kept in
      [0, 2^64) with the wrap-around written out;
    - [int] is 32-bit two's complement;
    - a [char] array is a [list ascii]; an access outside the array is a
      [Fault]; a pointer into the array is its index;
    - a C string argument is the list of its characters up to, and not
      including, the terminating NUL byte; a null pointer is [None];
    - [errno] is threaded explicitly through the calls that read or set it. *)

From Stdlib Require Import ZArith Ascii String List Lia Bool.
From stdpp Require Import base list.

Open Scope Z_scope.

(** ** Machine model *)

Definition ULLONG_BITS : nat := 64.
Definition ULLONG_MAX : Z := 2 ^ 64 - 1.
Definition SIZE_MAX : Z := 2 ^ 64 - 1.
Definition INT_MIN : Z := - 2 ^ 31.
Definition INT_MAX : Z := 2 ^ 31 - 1.

(** Arithmetic of [unsigned long long] and of [size_t]. *)
Definition ull_wrap (z : Z) : Z := z mod 2 ^ 64.
Definition size_wrap (z : Z) : Z := z mod 2 ^ 64.

(** Conversion of an [unsigned long long] to [int]: reduction modulo 2^32,
    read as a two's complement number. *)
Definition int_of_ull (z : Z) : Z :=
  let r := z mod 2 ^ 32 in
  if r <? 2 ^ 31 then r else r - 2 ^ 32.

Definition char_code (c : ascii) : Z := Z.of_N (N_of_ascii c).

Definition NUL : ascii := Ascii.zero.

(** A string as C sees it: the characters before the terminator. *)
Definition cstr := list ascii.

(** [s[i]]; the byte at the end of the characters is the terminator. *)
Definition cstr_get (s : cstr) (i : nat) : ascii := nth i s NUL.

Definition is_nul (c : ascii) : bool := char_code c =? 0.

(** Pointers returned by the program: null, or a position relative to the
    start of the array they were computed from. *)
Inductive pointer : Type :=
  | NULL : pointer
  | Ptr (ofs : Z) : pointer.

(** Outcome of running a piece of code on an array. *)
Inductive outcome (A : Type) : Type :=
  | Done (a : A)
  | Fault
  | Timeout.
Arguments Done {A} a.
Arguments Fault {A}.
Arguments Timeout {A}.

(** [buf[i] = c] for an array [buf]. *)
Definition store (buf : list ascii) (i : Z) (c : ascii) : option (list ascii) :=
  if (0 <=? i) && (i <? Z.of_nat (length buf))
  then Some (<[Z.to_nat i := c]> buf)
  else None.

(** The string that starts at index [p] of [buf]: the characters up to the
    first NUL, when [p] is inside the array and a NUL follows. *)
Fixpoint until_nul (l : list ascii) : option cstr :=
  match l with
  | [] => None
  | c :: l' =>
      if is_nul c then Some []
      else match until_nul l' with
           | Some s => Some (c :: s)
           | None => None
           end
  end.

Definition cstring_at (buf : list ascii) (p : pointer) : option cstr :=
  match p with
  | NULL => None
  | Ptr ofs =>
      if (0 <=? ofs) && (ofs <? Z.of_nat (length buf))
      then until_nul (drop (Z.to_nat ofs) buf)
      else None
  end.

(** ** The C library: character classes and [strtoull]

    [strtoull] is described after ISO C (7.22.1.4) in the "C" locale:
    optional white space, an optional sign, an optional [0x] prefix when the
    base is 16 or 0, then the longest run of digits of the base.  The value
    is computed exactly; when it does not fit, [ULLONG_MAX] is returned and
    [errno] is set to [ERANGE]; [errno] is never cleared. *)

Module Libc.

Definition ERANGE : Z := 34.

Definition isspace (c : ascii) : bool :=
  let k := char_code c in
  (k =? 32) || ((9 <=? k) && (k <=? 13)).

(** Value of a character as a digit, letters in either case. *)
Definition digit_val (c : ascii) : option Z :=
  let k := char_code c in
  if (48 <=? k) && (k <=? 57) then Some (k - 48)
  else if (65 <=? k) && (k <=? 90) then Some (k - 65 + 10)
  else if (97 <=? k) && (k <=? 122) then Some (k - 97 + 10)
  else None.

Definition digit_in (base : Z) (c : ascii) : option Z :=
  match digit_val c with
  | Some d => if d <? base then Some d else None
  | None => None
  end.

Fixpoint skip_spaces (s : cstr) : nat :=
  match s with
  | c :: s' => if isspace c then S (skip_spaces s') else O
  | [] => O
  end.

(** Length of the sign at the head of [s], and whether it is a minus. *)
Definition scan_sign (s : cstr) : bool * nat :=
  match s with
  | c :: _ =>
      if Ascii.eqb c "-" then (true, 1%nat)
      else if Ascii.eqb c "+" then (false, 1%nat)
      else (false, O)
  | [] => (false, O)
  end.

Definition is_x (c : ascii) : bool :=
  Ascii.eqb c "x" || Ascii.eqb c "X".

(** The base in effect and the length of the prefix skipped. *)
Definition scan_prefix (base : Z) (s : cstr) : Z * nat :=
  match s with
  | c :: s' =>
      if Ascii.eqb c "0" then
        if ((base =? 0) || (base =? 16)) && is_x (cstr_get s' 0)
        then (16, 2%nat)
        else if base =? 0 then (8, O) else (base, O)
      else if base =? 0 then (10, O) else (base, O)
  | [] => if base =? 0 then (10, O) else (base, O)
  end.

(** The longest run of digits at the head of [s]: its exact value on top of
    [acc], and its length. *)
Fixpoint scan_digits (base : Z) (s : cstr) (acc : Z) : Z * nat :=
  match s with
  | [] => (acc, O)
  | c :: s' =>
      match digit_in base c with
      | Some d =>
          let '(v, k) := scan_digits base s' (acc * base + d) in (v, S k)
      | None => (acc, O)
      end
  end.

(** What a call leaves behind: the value returned, [endptr - nptr], and
    whether [errno] was set to [ERANGE]. *)
Record conversion : Type := Conversion {
  conv_value : Z;
  conv_end : nat;
  conv_erange : bool
}.

(** [None] for a base that is neither 0 nor in 2..36: the standard gives
    the call no meaning there (and glibc leaves [endptr] unset). *)
Definition strtoull (nptr : cstr) (base : Z) : option conversion :=
  if (base <? 0) || (base =? 1) || (36 <? base) then None
  else
    let ws := skip_spaces nptr in
    let s := drop ws nptr in
    let '(negative, sg) := scan_sign s in
    let s := drop sg s in
    let '(base, px) := scan_prefix base s in
    let '(v, k) := scan_digits base (drop px s) 0 in
    match k with
    | O =>
        (* no digits: nothing converted, unless a lone "0" stood before an
           "x" that no hexadecimal digit follows *)
        match px with
        | O => Some (Conversion 0 O false)
        | S _ => Some (Conversion 0 (ws + sg + 1) false)
        end
    | S _ =>
        if ULLONG_MAX <? v
        then Some (Conversion ULLONG_MAX (ws + sg + px + k) true)
        else Some (Conversion (if negative then ull_wrap (- v) else v)
                              (ws + sg + px + k) false)
    end.

End Libc.

(** ** repnum.c *)

Inductive errorcodes : Type :=
  | SUCCESS
  | FAILURE
  | INVALID_ARGS
  | INCOMPLETE
  | OVERFLOW.

(** [struct numinfo] and the global [info], together with [errno]. *)
Record numinfo : Type := Numinfo {
  num : Z;
  base : Z
}.

Record state : Type := State {
  info : numinfo;
  errno : Z
}.

Definition set_errno (e : Z) (st : state) : state :=
  State (info st) e.
Definition set_base (b : Z) (st : state) : state :=
  State (Numinfo (num (info st)) b) (errno st).
Definition set_num (v : Z) (st : state) : state :=
  State (Numinfo v (base (info st))) (errno st).

(** What [errx] prints before it leaves the process, and the texts of the
    [-h] and [-v] options. *)
Inductive diagnostic : Type :=
  | UnrecognizedOption
  | NotValidNumber (s : option cstr) (b : Z)
  | TooLargeNumber (s : option cstr)
  | UnsupportedBase (b : Z)
  | HelpText
  | VersionText.

(** A run either returns, or leaves the process with a status, or does
    something C gives no meaning to. *)
Inductive run (A : Type) : Type :=
  | Return (a : A)
  | Exit (status : Z) (d : diagnostic)
  | Undefined.
Arguments Return {A} a.
Arguments Exit {A} status d.
Arguments Undefined {A}.

Definition prog (A : Type) : Type := state -> run (A * state).

Definition ret {A} (a : A) : prog A := fun st => Return (a, st).
Definition bind {A B} (m : prog A) (k : A -> prog B) : prog B :=
  fun st =>
    match m st with
    | Return (a, st') => k a st'
    | Exit c d => Exit c d
    | Undefined => Undefined
    end.
Definition errx {A} (c : Z) (d : diagnostic) : prog A := fun _ => Exit c d.
Definition undefined {A} : prog A := fun _ => Undefined.
Definition get_errno : prog Z := fun st => Return (errno st, st).
Definition get_base : prog Z := fun st => Return (base (info st), st).
Definition modify (f : state -> state) : prog unit :=
  fun st => Return (tt, f st).

Notation "'do' x <- m ; k" := (bind m (fun x => k))
  (at level 10, x name, m at level 100, k at level 200).
Notation "'do' ' p <- m ; k" := (bind m (fun x => match x with p => k end))
  (at level 10, p pattern, m at level 100, k at level 200).
Notation "m ;; k" := (bind m (fun _ => k))
  (at level 100, k at level 200, right associativity).

(** [#define iseven(n) ((n) % 2 == 0)] *)
Definition iseven (n : Z) : bool := n mod 2 =? 0.

(** The [while (--n) { ... }] loop of [num2bin].  It returns the array and
    the value of [n] on leaving the loop.  Each round halves [num], so no
    more than [ULLONG_BITS] rounds are ever run. *)
Fixpoint num2bin_loop (fuel : nat) (num : Z) (buf : list ascii) (n : Z)
  : outcome (list ascii * Z) :=
  match fuel with
  | O => Timeout
  | S fuel' =>
      let n := size_wrap (n - 1) in
      if n =? 0 then Done (buf, n)
      else
        let s := if iseven num then "0"%char else "1"%char in
        match store buf (size_wrap (n - 1)) s with
        | None => Fault
        | Some buf =>
            let num := num / 2 in
            if num =? 0 then Done (buf, n)
            else num2bin_loop fuel' num buf n
        end
  end.

Definition num2bin (num : Z) (buf : list ascii) (n : Z)
  : outcome (list ascii * pointer) :=
  match store buf (size_wrap (n - 1)) NUL with
  | None => Fault
  | Some buf =>
      match num2bin_loop ULLONG_BITS num buf n with
      | Done (buf, n) => Done (buf, Ptr (size_wrap (n - 1)))
      | Fault => Fault
      | Timeout => Timeout
      end
  end.

(** [strtoull] as a step of the program: the conversion, and [errno]. *)
Definition call_strtoull (s : cstr) (b : Z) : prog Libc.conversion :=
  match Libc.strtoull s b with
  | None => undefined
  | Some r =>
      (if Libc.conv_erange r then modify (set_errno Libc.ERANGE) else ret tt) ;;
      ret r
  end.

(** [str2ull str num base].  [num] is the content of the variable pointed
    to, [None] for a null pointer; its content after the call is returned
    with the classification. *)
Definition str2ull (str : option cstr) (num : option Z) (base : Z)
  : prog (errorcodes * option Z) :=
  match str, num with
  | Some s, Some _ =>
      if is_nul (cstr_get s 0) then ret (INVALID_ARGS, num)
      else
        do r <- call_strtoull s base;
        let status := Libc.conv_value r in
        if (status =? 0) && Nat.eqb (Libc.conv_end r) 0 then ret (FAILURE, num)
        else
          do e <- get_errno;
          if e =? Libc.ERANGE then ret (OVERFLOW, num)
          else
            ret (if is_nul (cstr_get s (Libc.conv_end r))
                 then SUCCESS else INCOMPLETE,
                 Some status)
  | _, _ => ret (INVALID_ARGS, num)
  end.

(** [ensurenum s n b].  [temp] is whatever the local variable of that name
    holds when the function is entered. *)
Definition ensurenum (temp : Z) (s : option cstr) (n : option Z) (b : Z)
  : prog Z :=
  let n := match n with
           | Some v => v
           | None => temp
           end in
  do '(status, n) <- str2ull s (Some n) b;
  match status with
  | FAILURE | INCOMPLETE => errx 1 (NotValidNumber s b)
  | OVERFLOW => errx 1 (TooLargeNumber s)
  | SUCCESS | INVALID_ARGS =>
      match n with
      | Some v => ret v
      | None => undefined
      end
  end.

(** [help c] prints the usage text and calls [exit(c)]. *)
Definition help {A} (c : Z) : prog A := errx c HelpText.

Definition ensurebase (b : Z) : prog Z :=
  if (b <? 2) || (36 <? b) then errx 1 (UnsupportedBase b)
  else ret b.

(** What [getopt] hands to the loop of [parseopts], one option at a time. *)
Inductive option_event : Type :=
  | OptUnknown
  | OptBase (optarg : cstr)
  | OptHelp
  | OptVersion.

(** [case 'b': info.base = ensurebase(ensurenum(optarg, 0, 10));] *)
Definition case_b (temp : Z) (optarg : cstr) : prog unit :=
  do v <- ensurenum temp (Some optarg) None 10;
  do b <- ensurebase (int_of_ull v);
  modify (set_base b).

Fixpoint parseopts_loop (temp : Z) (opts : list option_event) : prog unit :=
  match opts with
  | [] => ret tt
  | OptUnknown :: _ => errx 1 UnrecognizedOption
  | OptBase optarg :: opts' =>
      case_b temp optarg ;; parseopts_loop temp opts'
  | OptHelp :: _ => help 0
  | OptVersion :: _ => errx 0 VersionText
  end.

(** [operand] is [argv[optind]] after the options, when there is one. *)
Definition parseopts (temp : Z) (opts : list option_event)
    (operand : option cstr) : prog unit :=
  parseopts_loop temp opts ;;
  match operand with
  | None => help 1
  | Some s =>
      do b <- get_base;
      do v <- ensurenum temp (Some s) None b;
      modify (set_num v)
  end.

(** The line printed by [main]: the number, shown by [printf] in decimal,
    hexadecimal and octal, and the string shown after [[bin]]. *)
Record report : Type := Report {
  shown : Z;
  bin : cstr
}.

(** [main]; [buffer0] is the content of the local array on entry and
    [argv1] is [argv[1]]. *)
Definition main (temp : Z) (buffer0 : list ascii) (argv1 : option cstr)
    (opts : list option_event) (operand : option cstr) : prog report :=
  modify (set_base 0) ;;
  parseopts temp opts operand ;;
  fun st =>
    let v := num (info st) in
    match num2bin v buffer0 1024 with
    | Done (buf, NULL) => Exit 1 (TooLargeNumber argv1)
    | Done (buf, res) =>
        match cstring_at buf res with
        | Some s => Return (Report v s, st)
        | None => Undefined
        end
    | Fault | Timeout => Undefined
    end.

(** The state a process starts in: [errno] is zero, [info] is zeroed. *)
Definition initial : state := State (Numinfo 0 0) 0.

(** ** Reference notions used by the statements *)

(** Number of significant binary digits: one for zero. *)
Definition sigbits (v : Z) : Z :=
  if v =? 0 then 1 else Z.log2 v + 1.

(** Binary numeral of a positive number, most significant digit first,
    in front of [acc]. *)
Fixpoint bin_pos (p : positive) (acc : cstr) : cstr :=
  match p with
  | xH => "1"%char :: acc
  | xO q => bin_pos q ("0"%char :: acc)
  | xI q => bin_pos q ("1"%char :: acc)
  end.

(** The minimal binary numeral of [v]. *)
Definition to_binary (v : Z) : cstr :=
  match v with
  | Z0 => ["0"%char]
  | Zpos p => bin_pos p []
  | Zneg _ => []
  end.

(** The digits of the bases up to 36, in the order of their values. *)
Definition digits_lower : cstr :=
  list_ascii_of_string "0123456789abcdefghijklmnopqrstuvwxyz".
Definition digits_upper : cstr :=
  list_ascii_of_string "0123456789ABCDEFGHIJKLMNOPQRSTUVWXYZ".

Fixpoint position (c : ascii) (l : cstr) : option Z :=
  match l with
  | [] => None
  | d :: l' =>
      if Ascii.eqb c d then Some 0
      else match position c l' with
           | Some i => Some (i + 1)
           | None => None
           end
  end.

(** The value a character stands for as a digit, in either case. *)
Definition digit_value (c : ascii) : option Z :=
  match position c digits_lower with
  | Some d => Some d
  | None => position c digits_upper
  end.

Definition is_digit (B : Z) (c : ascii) : bool :=
  match digit_value c with
  | Some d => d <? B
  | None => false
  end.

(** A numeral of base [B]: one digit of the base or more, nothing else. *)
Definition is_numeral (B : Z) (s : cstr) : bool :=
  match s with
  | [] => false
  | _ :: _ => forallb (is_digit B) s
  end.

(** One step of reading a numeral from the left. *)
Definition horner (B : Z) (acc : Z) (c : ascii) : Z :=
  acc * B + default 0 (digit_value c).

(** The number a numeral denotes in base [B]. *)
Definition numeral_value (B : Z) (s : cstr) : Z :=
  fold_left (horner B) s 0.

(** The sign in front of a numeral: none, a plus or a minus. *)
Inductive sign : Type := NoSign | Plus | Minus.

Definition sign_text (sg : sign) : cstr :=
  match sg with
  | NoSign => []
  | Plus => ["+"%char]
  | Minus => ["-"%char]
  end.

Definition sign_minus (sg : sign) : bool :=
  match sg with
  | Minus => true
  | _ => false
  end.

(** The usual reading of a text without a given base: after a zero and an
    [x], a hexadecimal numeral; after a zero alone, an octal numeral; a
    decimal numeral otherwise.  The result is the base and the numeral. *)
Definition auto_numeral (text : cstr) : option (Z * cstr) :=
  match text with
  | [] => None
  | z :: rest =>
      if Ascii.eqb z "0" then
        match rest with
        | [] => Some (8, text)
        | x :: H =>
            if Libc.is_x x && is_numeral 16 H then Some (16, H)
            else if is_numeral 8 text then Some (8, text)
            else None
        end
      else if is_numeral 10 text then Some (10, text)
      else None
  end.

Definition cs (s : string) : cstr := list_ascii_of_string s.

(** An array of [n] characters of no particular content. *)
Definition buffer (n : nat) : list ascii := repeat "#"%char n.

(** * Properties *)

(** ** Arithmetic of the machine types *)

Lemma size_wrap_small z : 0 <= z <= SIZE_MAX -> size_wrap z = z.
Proof. intros H. unfold size_wrap, SIZE_MAX in *. apply Z.mod_small. lia. Qed.

Lemma size_wrap_minus_one : size_wrap (0 - 1) = SIZE_MAX.
Proof. reflexivity. Qed.

Lemma pos_size_nat_size p : Z.of_nat (Pos.size_nat p) = Zpos (Pos.size p).
Proof.
  induction p as [p IH|p IH|]; simpl Pos.size_nat; simpl Pos.size;
    rewrite ?Nat2Z.inj_succ, ?IH; lia.
Qed.

Lemma sigbits_pos p : sigbits (Zpos p) = Z.of_nat (Pos.size_nat p).
Proof.
  unfold sigbits. simpl (_ =? _).
  destruct p as [p|p|]; simpl Z.log2; simpl Pos.size_nat;
    rewrite ?Nat2Z.inj_succ, ?pos_size_nat_size; lia.
Qed.

Lemma sigbits_bound v : 0 <= v <= ULLONG_MAX -> 1 <= sigbits v <= 64.
Proof.
  intros [H0 H1]. unfold sigbits. destruct (Z.eqb_spec v 0) as [->|Hne]; [lia|].
  pose proof (Z.log2_nonneg v).
  assert (Z.log2 v < 64); [|lia].
  apply Z.log2_lt_pow2; unfold ULLONG_MAX in *; lia.
Qed.

Lemma half_xO p : Zpos p~0 / 2 = Zpos p.
Proof. rewrite Pos2Z.inj_xO, Z.mul_comm. apply Z.div_mul. lia. Qed.

Lemma half_xI p : Zpos p~1 / 2 = Zpos p.
Proof.
  rewrite Pos2Z.inj_xI. symmetry.
  apply Z.div_unique with (r := 1); lia.
Qed.

Lemma iseven_xO p : iseven (Zpos p~0) = true.
Proof.
  unfold iseven. rewrite Pos2Z.inj_xO, Z.mul_comm, Z.mod_mul by lia. reflexivity.
Qed.

Lemma iseven_xI p : iseven (Zpos p~1) = false.
Proof.
  unfold iseven. rewrite Pos2Z.inj_xI, Z.add_comm, Z.mul_comm, Z.mod_add by lia.
  reflexivity.
Qed.

(** ** Arrays and strings *)

Lemma store_middle pre x post c :
  store (pre ++ x :: post) (Z.of_nat (length pre)) c = Some (pre ++ c :: post).
Proof.
  unfold store. rewrite length_app. simpl length.
  replace ((0 <=? Z.of_nat (length pre)) &&
           (Z.of_nat (length pre) <? Z.of_nat (length pre + S (length post))))
    with true by (symmetry; apply andb_true_intro; split;
                  [apply Z.leb_le | apply Z.ltb_lt]; lia).
  rewrite Nat2Z.id. f_equal.
  rewrite insert_app_r_alt by lia. rewrite Nat.sub_diag. reflexivity.
Qed.

Lemma store_outside buf i c :
  Z.of_nat (length buf) <= i -> store buf i c = None.
Proof.
  intros H. unfold store.
  destruct (0 <=? i); simpl; [|reflexivity].
  destruct (Z.ltb_spec i (Z.of_nat (length buf))); [lia | reflexivity].
Qed.

Lemma bin_pos_app p acc : bin_pos p acc = bin_pos p [] ++ acc.
Proof.
  revert acc. induction p as [p IH|p IH|]; intros acc; simpl.
  - rewrite (IH ("1"%char :: acc)), (IH ["1"%char]), <- app_assoc. reflexivity.
  - rewrite (IH ("0"%char :: acc)), (IH ["0"%char]), <- app_assoc. reflexivity.
  - reflexivity.
Qed.

Lemma bin_pos_length p : length (bin_pos p []) = Pos.size_nat p.
Proof.
  induction p as [p IH|p IH|]; simpl; [| |reflexivity];
    rewrite bin_pos_app, length_app, IH; simpl; lia.
Qed.

Lemma to_binary_length v : 0 <= v -> Z.of_nat (length (to_binary v)) = sigbits v.
Proof.
  intros H. destruct v as [|p|p]; [reflexivity| |lia].
  simpl to_binary. rewrite bin_pos_length, sigbits_pos. reflexivity.
Qed.

(** ** The loop of [num2bin] *)

(** One round that finds room: the digit goes in front of what was written
    so far. *)
Lemma num2bin_loop_round fuel v pre x post :
  Z.of_nat (length pre) + 1 < SIZE_MAX ->
  num2bin_loop (S fuel) v ((pre ++ [x]) ++ post)
               (Z.of_nat (length (pre ++ [x])) + 1)
  = let buf := pre ++ (if iseven v then "0"%char else "1"%char) :: post in
    if v / 2 =? 0 then Done (buf, Z.of_nat (length pre) + 1)
    else num2bin_loop fuel (v / 2) buf (Z.of_nat (length pre) + 1).
Proof.
  intros Hlen. cbn [num2bin_loop].
  rewrite length_app. simpl length.
  replace (Z.of_nat (length pre + 1) + 1 - 1) with (Z.of_nat (length pre) + 1) by lia.
  rewrite size_wrap_small by lia.
  destruct (Z.eqb_spec (Z.of_nat (length pre) + 1) 0) as [E|_]; [lia|].
  replace (Z.of_nat (length pre) + 1 - 1) with (Z.of_nat (length pre)) by lia.
  rewrite size_wrap_small by lia.
  rewrite <- app_assoc. simpl app.
  rewrite store_middle. reflexivity.
Qed.

(** The round that finds the array full leaves the loop with [n = 0]. *)
Lemma num2bin_loop_full fuel v buf :
  num2bin_loop (S fuel) v buf 1 = Done (buf, 0).
Proof. reflexivity. Qed.

Lemma num2bin_loop_pos p : forall fuel pre post,
  (Pos.size_nat p <= fuel)%nat ->
  (Pos.size_nat p <= length pre)%nat ->
  Z.of_nat (length pre) < SIZE_MAX ->
  num2bin_loop fuel (Zpos p) (pre ++ post) (Z.of_nat (length pre) + 1)
  = Done (take (length pre - Pos.size_nat p) pre ++ bin_pos p post,
          Z.of_nat (length pre - Pos.size_nat p) + 1).
Proof.
  induction p as [p IH|p IH|]; intros fuel pre post Hfuel Hroom Hmax;
    simpl Pos.size_nat in *;
    (destruct fuel as [|fuel]; [lia|]);
    (destruct pre as [|x pre _] using rev_ind; [simpl in Hroom; lia|]);
    rewrite length_app in Hroom, Hmax; simpl length in Hroom, Hmax;
    rewrite num2bin_loop_round by lia; cbv zeta.
  - rewrite half_xI, iseven_xI. simpl (_ =? _).
    rewrite IH by lia. rewrite length_app. simpl length.
    replace (length pre + 1 - S (Pos.size_nat p))%nat
      with (length pre - Pos.size_nat p)%nat by lia.
    rewrite take_app_le by lia. reflexivity.
  - rewrite half_xO, iseven_xO. simpl (_ =? _).
    rewrite IH by lia. rewrite length_app. simpl length.
    replace (length pre + 1 - S (Pos.size_nat p))%nat
      with (length pre - Pos.size_nat p)%nat by lia.
    rewrite take_app_le by lia. reflexivity.
  - simpl. rewrite length_app. simpl length.
    replace (length pre + 1 - 1)%nat with (length pre) by lia.
    rewrite take_app_length. reflexivity.
Qed.

(** With too little room the loop stops at [n = 0], having written only the
    low digits. *)
Lemma num2bin_loop_short p : forall fuel pre post,
  (Pos.size_nat p <= fuel)%nat ->
  (length pre < Pos.size_nat p)%nat ->
  Z.of_nat (length pre) < SIZE_MAX ->
  num2bin_loop fuel (Zpos p) (pre ++ post) (Z.of_nat (length pre) + 1)
  = Done (drop (Pos.size_nat p - length pre) (bin_pos p []) ++ post, 0).
Proof.
  induction p as [p IH|p IH|]; intros fuel pre post Hfuel Hroom Hmax;
    simpl Pos.size_nat in *;
    (destruct fuel as [|fuel]; [lia|]);
    (destruct pre as [|x pre _] using rev_ind;
     [ simpl length; simpl Z.add; rewrite num2bin_loop_full;
       rewrite Nat.sub_0_r, drop_ge
         by (simpl; rewrite ?(bin_pos_app p [_]), ?length_app, ?bin_pos_length;
             simpl; lia);
       reflexivity
     | ]);
    rewrite length_app in Hroom, Hmax; simpl length in Hroom, Hmax;
    try lia;
    rewrite num2bin_loop_round by lia; cbv zeta.
  - rewrite half_xI, iseven_xI. simpl (_ =? _).
    rewrite IH by lia. rewrite length_app. simpl length.
    replace (S (Pos.size_nat p) - (length pre + 1))%nat
      with (Pos.size_nat p - length pre)%nat by lia.
    simpl bin_pos. rewrite (bin_pos_app p [_]).
    rewrite drop_app_le by (rewrite bin_pos_length; lia).
    rewrite <- app_assoc. reflexivity.
  - rewrite half_xO, iseven_xO. simpl (_ =? _).
    rewrite IH by lia. rewrite length_app. simpl length.
    replace (S (Pos.size_nat p) - (length pre + 1))%nat
      with (Pos.size_nat p - length pre)%nat by lia.
    simpl bin_pos. rewrite (bin_pos_app p [_]).
    rewrite drop_app_le by (rewrite bin_pos_length; lia).
    rewrite <- app_assoc. reflexivity.
Qed.

Lemma num2bin_loop_fits v fuel pre post :
  0 <= v ->
  (length (to_binary v) <= fuel)%nat ->
  (length (to_binary v) <= length pre)%nat ->
  Z.of_nat (length pre) < SIZE_MAX ->
  num2bin_loop fuel v (pre ++ post) (Z.of_nat (length pre) + 1)
  = Done (take (length pre - length (to_binary v)) pre ++ to_binary v ++ post,
          Z.of_nat (length pre - length (to_binary v)) + 1).
Proof.
  intros Hv Hfuel Hroom Hmax. destruct v as [|p|p]; [| |lia].
  - simpl to_binary in *. simpl length in *.
    destruct fuel as [|fuel]; [lia|].
    destruct pre as [|x pre _] using rev_ind; [simpl in Hroom; lia|].
    rewrite length_app in Hmax. simpl length in Hmax.
    rewrite num2bin_loop_round by lia. cbv zeta.
    change (iseven 0) with true. change (0 / 2 =? 0) with true. cbv iota.
    rewrite length_app. simpl length.
    replace (length pre + 1 - 1)%nat with (length pre) by lia.
    rewrite take_app_length. reflexivity.
  - simpl to_binary in *. rewrite bin_pos_length in *.
    rewrite num2bin_loop_pos by assumption.
    rewrite <- bin_pos_app. reflexivity.
Qed.

(** ** [num2bin] *)

Lemma to_binary_fuel (v : Z) :
  0 <= v <= ULLONG_MAX -> (length (to_binary v) <= ULLONG_BITS)%nat.
Proof.
  intros H. pose proof (sigbits_bound v H) as B.
  rewrite <- to_binary_length in B by lia. unfold ULLONG_BITS. lia.
Qed.

(** Splitting an array at an index inside it. *)
Lemma split_at (buf : list ascii) (i : nat) :
  (i < length buf)%nat ->
  exists x, buf = take i buf ++ x :: drop (S i) buf.
Proof.
  intros H. destruct (lookup_lt_is_Some_2 buf i H) as [x Hx].
  exists x. symmetry. apply take_drop_middle. exact Hx.
Qed.

Lemma num2bin_fits v buf n :
  0 <= v <= ULLONG_MAX ->
  sigbits v + 1 <= n ->
  n <= Z.of_nat (length buf) ->
  n <= SIZE_MAX ->
  num2bin v buf n
  = Done (take (Z.to_nat (n - 1 - sigbits v)) buf
            ++ to_binary v ++ NUL :: drop (Z.to_nat n) buf,
          Ptr (n - 1 - sigbits v)).
Proof.
  intros Hv Hn Hlen Hmax.
  pose proof (sigbits_bound v Hv) as Hb.
  pose proof (to_binary_length v (proj1 Hv)) as Hd.
  pose proof (to_binary_fuel v Hv) as Hf.
  destruct (split_at buf (Z.to_nat (n - 1))) as [x Hsplit]; [lia|].
  set (pre := take (Z.to_nat (n - 1)) buf) in *.
  assert (Hpre : length pre = Z.to_nat (n - 1))
    by (unfold pre; rewrite length_take; lia).
  replace (S (Z.to_nat (n - 1))) with (Z.to_nat n) in Hsplit by lia.
  set (post := drop (Z.to_nat n) buf) in *.
  assert (Hn' : n = Z.of_nat (length pre) + 1) by lia.
  unfold num2bin. rewrite size_wrap_small by lia.
  rewrite Hsplit at 1.
  replace (n - 1) with (Z.of_nat (length pre)) at 1 by lia.
  rewrite store_middle. rewrite Hn' at 1.
  rewrite num2bin_loop_fits by lia.
  replace (Z.of_nat (length pre - length (to_binary v)) + 1 - 1)
    with (n - 1 - sigbits v) by lia.
  rewrite size_wrap_small by lia.
  replace (length pre - length (to_binary v))%nat
    with (Z.to_nat (n - 1 - sigbits v)) by lia.
  unfold pre. rewrite take_take.
  replace (Z.to_nat (n - 1 - sigbits v) `min` Z.to_nat (n - 1))%nat
    with (Z.to_nat (n - 1 - sigbits v)) by lia.
  reflexivity.
Qed.

(** Reading back a string that was laid down in front of a NUL. *)
Lemma until_nul_app s rest :
  forallb (fun c => negb (is_nul c)) s = true ->
  until_nul (s ++ NUL :: rest) = Some s.
Proof.
  induction s as [|c s IH]; intros H; simpl in *; [reflexivity|].
  apply andb_prop in H as [Hc Hs].
  apply negb_true_iff in Hc. rewrite Hc, IH by assumption. reflexivity.
Qed.

Lemma cstring_at_written (pre s rest : list ascii) :
  forallb (fun c => negb (is_nul c)) s = true ->
  cstring_at (pre ++ s ++ NUL :: rest) (Ptr (Z.of_nat (length pre))) = Some s.
Proof.
  intros H. unfold cstring_at.
  rewrite !length_app. simpl length.
  replace ((0 <=? Z.of_nat (length pre)) &&
           (Z.of_nat (length pre)
              <? Z.of_nat (length pre + (length s + S (length rest)))))
    with true by (symmetry; apply andb_true_intro; split;
                  [apply Z.leb_le | apply Z.ltb_lt]; lia).
  rewrite Nat2Z.id, drop_app_length. apply until_nul_app. exact H.
Qed.

Lemma bin_pos_binary p acc :
  forallb (is_digit 2) acc = true -> forallb (is_digit 2) (bin_pos p acc) = true.
Proof.
  revert acc. induction p as [p IH|p IH|]; intros acc H; simpl bin_pos.
  - apply IH. simpl. rewrite H. reflexivity.
  - apply IH. simpl. rewrite H. reflexivity.
  - simpl. rewrite H. reflexivity.
Qed.

Lemma to_binary_binary v : 0 <= v -> forallb (is_digit 2) (to_binary v) = true.
Proof.
  intros H. destruct v as [|p|p]; [reflexivity| |lia].
  apply bin_pos_binary. reflexivity.
Qed.

(** ** Digits and numerals *)

(** The digit values of the specification are those of the C library. *)
Lemma digit_value_libc c : Libc.digit_val c = digit_value c.
Proof. destruct c as [[] [] [] [] [] [] [] []]; reflexivity. Qed.

(** What a digit is not. *)
Lemma digit_char c d :
  digit_value c = Some d ->
  Libc.isspace c = false /\ Ascii.eqb c "-" = false /\ Ascii.eqb c "+" = false
  /\ is_nul c = false /\ (Libc.is_x c = true -> d = 33) /\ 0 <= d.
Proof.
  destruct c as [[] [] [] [] [] [] [] []]; vm_compute; intros H;
    try discriminate H; injection H as <-;
    repeat split; intros; try reflexivity; try discriminate.
Qed.

Lemma is_digit_value B c :
  is_digit B c = true -> exists d, digit_value c = Some d /\ 0 <= d < B.
Proof.
  unfold is_digit. destruct (digit_value c) as [d|] eqn:E; [|discriminate].
  intros H. apply Z.ltb_lt in H. exists d.
  destruct (digit_char c d E) as (_ & _ & _ & _ & _ & H0). auto.
Qed.

Lemma digit_in_numeral B c :
  is_digit B c = true ->
  Libc.digit_in B c = Some (default 0 (digit_value c)).
Proof.
  intros H. unfold Libc.digit_in. rewrite digit_value_libc.
  unfold is_digit in H. destruct (digit_value c) as [d|]; [|discriminate].
  rewrite H. reflexivity.
Qed.

Lemma digit_in_none B c : is_digit B c = false -> Libc.digit_in B c = None.
Proof.
  intros H. unfold Libc.digit_in. rewrite digit_value_libc.
  unfold is_digit in H. destruct (digit_value c) as [d|]; [|reflexivity].
  rewrite H. reflexivity.
Qed.

Lemma numeral_value_fold B s : numeral_value B s = fold_left (horner B) s 0.
Proof. reflexivity. Qed.

Lemma scan_digits_all B s : forall acc,
  forallb (is_digit B) s = true ->
  Libc.scan_digits B s acc = (fold_left (horner B) s acc, length s).
Proof.
  induction s as [|c s IH]; intros acc H; simpl in *; [reflexivity|].
  apply andb_prop in H as [Hc Hs].
  rewrite (digit_in_numeral B c Hc), (IH _ Hs). reflexivity.
Qed.

Lemma fold_horner_nonneg B s : forall acc,
  0 <= B -> 0 <= acc -> forallb (is_digit B) s = true ->
  acc <= fold_left (horner B) s acc.
Proof.
  induction s as [|c s IH]; intros acc HB Hacc H; simpl in *; [lia|].
  apply andb_prop in H as [Hc Hs].
  destruct (is_digit_value B c Hc) as (d & Hd & Hr).
  assert (Hstep : acc <= horner B acc c).
  { unfold horner. rewrite Hd. simpl. nia. }
  specialize (IH (horner B acc c) HB ltac:(lia) Hs). lia.
Qed.

Lemma numeral_value_nonneg B s :
  0 <= B -> forallb (is_digit B) s = true -> 0 <= numeral_value B s.
Proof. intros HB H. apply (fold_horner_nonneg B s 0); auto; lia. Qed.

Lemma numeral_no_nul B s :
  forallb (is_digit B) s = true ->
  forallb (fun c => negb (is_nul c)) s = true.
Proof.
  induction s as [|c s IH]; intros H; simpl in *; [reflexivity|].
  apply andb_prop in H as [Hc Hs].
  destruct (is_digit_value B c Hc) as (d & Hd & _).
  destruct (digit_char c d Hd) as (_ & _ & _ & Hn & _).
  rewrite Hn, IH by assumption. reflexivity.
Qed.

Lemma bin_pos_value p : numeral_value 2 (bin_pos p []) = Zpos p.
Proof.
  induction p as [p IH|p IH|]; simpl bin_pos; [| |reflexivity];
    rewrite bin_pos_app, numeral_value_fold, fold_left_app,
      <- numeral_value_fold, IH; simpl; unfold horner; simpl; lia.
Qed.

Lemma to_binary_value v : 0 <= v -> numeral_value 2 (to_binary v) = v.
Proof.
  intros H. destruct v as [|p|p]; [reflexivity| |lia]. apply bin_pos_value.
Qed.

Lemma to_binary_numeral v : 0 <= v -> is_numeral 2 (to_binary v) = true.
Proof.
  intros H. pose proof (to_binary_binary v H) as Hb.
  pose proof (to_binary_length v H) as Hl.
  unfold is_numeral. destruct (to_binary v); [|exact Hb].
  simpl in Hl. unfold sigbits in Hl. destruct (v =? 0); [lia|].
  pose proof (Z.log2_nonneg v). lia.
Qed.

Lemma bin_pos_head p acc : head (bin_pos p acc) = Some "1"%char.
Proof. revert acc. induction p as [p IH|p IH|]; intros acc; simpl; auto. Qed.

Lemma is_numeral_all B s : is_numeral B s = true -> forallb (is_digit B) s = true.
Proof. destruct s; [discriminate | auto]. Qed.

Lemma is_numeral_length B s : is_numeral B s = true -> (0 < length s)%nat.
Proof. destruct s; [discriminate | simpl; lia]. Qed.

(** ** [strtoull] on numerals *)

Lemma skip_spaces_app ws r :
  forallb Libc.isspace ws = true ->
  Libc.skip_spaces r = O ->
  Libc.skip_spaces (ws ++ r) = length ws.
Proof.
  intros Hws Hr. induction ws as [|c ws IH]; simpl in *; [exact Hr|].
  apply andb_prop in Hws as [Hc Hws]. rewrite Hc, IH by assumption. reflexivity.
Qed.

Lemma scan_sign_numeral B sg D :
  is_numeral B D = true ->
  Libc.scan_sign (sign_text sg ++ D) = (sign_minus sg, length (sign_text sg)).
Proof.
  intros H. destruct sg; try reflexivity. simpl.
  destruct D as [|c D]; [discriminate|]. simpl in H.
  apply andb_prop in H as [Hc _].
  destruct (is_digit_value B c Hc) as (d & Hd & _).
  destruct (digit_char c d Hd) as (_ & Hm & Hp & _).
  unfold Libc.scan_sign. rewrite Hm, Hp. reflexivity.
Qed.

Lemma skip_spaces_signed B sg D :
  is_numeral B D = true -> Libc.skip_spaces (sign_text sg ++ D) = O.
Proof.
  intros H. destruct sg; try reflexivity. simpl.
  destruct D as [|c D]; [discriminate|]. simpl in H.
  apply andb_prop in H as [Hc _].
  destruct (is_digit_value B c Hc) as (d & Hd & _).
  destruct (digit_char c d Hd) as (Hs & _).
  simpl. rewrite Hs. reflexivity.
Qed.

(** With an explicit base no prefix is skipped in front of a numeral: an
    [x] is not a digit of base 16. *)
Lemma scan_prefix_numeral B D :
  2 <= B <= 36 -> is_numeral B D = true -> Libc.scan_prefix B D = (B, O).
Proof.
  intros HB H. unfold Libc.scan_prefix.
  destruct D as [|c D]; [discriminate|].
  destruct (Z.eqb_spec B 0) as [E|_]; [lia|]. simpl orb.
  destruct (Ascii.eqb c "0"); [|reflexivity].
  destruct (Z.eqb_spec B 16) as [->|_]; [|reflexivity]. simpl andb.
  destruct (Libc.is_x (cstr_get D 0)) eqn:Ex; [|reflexivity].
  exfalso. destruct D as [|c' D]; [discriminate Ex|]. simpl in Ex.
  simpl in H. apply andb_prop in H as [_ H]. apply andb_prop in H as [Hc' _].
  destruct (is_digit_value 16 c' Hc') as (d & Hd & Hr).
  destruct (digit_char c' d Hd) as (_ & _ & _ & _ & Hx & _).
  specialize (Hx Ex). lia.
Qed.

(** With base 0 a decimal numeral that does not start with a zero is read
    in base 10. *)
Lemma scan_prefix_decimal D :
  is_numeral 10 D = true -> head D <> Some "0"%char ->
  Libc.scan_prefix 0 D = (10, O).
Proof.
  intros H Hz. unfold Libc.scan_prefix.
  destruct D as [|c D]; [discriminate|].
  destruct (Ascii.eqb_spec c "0") as [->|_]; [|reflexivity].
  exfalso. apply Hz. reflexivity.
Qed.

(** The conversion of white space, a sign and a numeral of the base in
    effect. *)
Lemma strtoull_signed B0 B ws sg D :
  B0 = 0 \/ 2 <= B0 <= 36 ->
  0 <= B ->
  forallb Libc.isspace ws = true ->
  Libc.scan_prefix B0 D = (B, O) ->
  is_numeral B D = true ->
  Libc.strtoull (ws ++ sign_text sg ++ D) B0
  = let v := numeral_value B D in
    let e := (length ws + length (sign_text sg) + 0 + length D)%nat in
    Some (if ULLONG_MAX <? v then Libc.Conversion ULLONG_MAX e true
          else Libc.Conversion (if sign_minus sg then ull_wrap (- v) else v)
                               e false).
Proof.
  intros HB0 HB Hws Hpx HD. unfold Libc.strtoull.
  replace ((B0 <? 0) || (B0 =? 1) || (36 <? B0)) with false
    by (symmetry; repeat (apply orb_false_intro);
        [apply Z.ltb_ge | apply Z.eqb_neq | apply Z.ltb_ge]; lia).
  rewrite (skip_spaces_app ws _ Hws (skip_spaces_signed B sg D HD)).
  rewrite drop_app_length.
  rewrite (scan_sign_numeral B sg D HD).
  rewrite drop_app_length, Hpx. rewrite drop_0.
  rewrite (scan_digits_all B D 0 (is_numeral_all B D HD)).
  fold (numeral_value B D).
  pose proof (is_numeral_length B D HD) as Hl.
  destruct (length D) as [|k] eqn:El; [lia|].
  cbv zeta. destruct (ULLONG_MAX <? numeral_value B D); reflexivity.
Qed.

(** ** [str2ull] *)

(** [str2ull] once [strtoull] has made its conversion. *)
Lemma str2ull_converted s n B st r :
  is_nul (cstr_get s 0) = false ->
  Libc.strtoull s B = Some r ->
  str2ull (Some s) (Some n) B st
  = let st' := if Libc.conv_erange r then set_errno Libc.ERANGE st else st in
    if (Libc.conv_value r =? 0) && Nat.eqb (Libc.conv_end r) 0
    then Return ((FAILURE, Some n), st')
    else if errno st' =? Libc.ERANGE
         then Return ((OVERFLOW, Some n), st')
         else Return ((if is_nul (cstr_get s (Libc.conv_end r))
                       then SUCCESS else INCOMPLETE,
                       Some (Libc.conv_value r)), st').
Proof.
  intros Hs Hr. unfold str2ull. rewrite Hs.
  unfold bind, call_strtoull. rewrite Hr.
  unfold bind, modify, ret, get_errno.
  destruct (Libc.conv_erange r); cbv zeta;
    destruct ((Libc.conv_value r =? 0) && Nat.eqb (Libc.conv_end r) 0);
    try reflexivity;
    match goal with |- context [errno ?x =? _] => destruct (errno x =? Libc.ERANGE) end;
    reflexivity.
Qed.

Lemma space_not_nul c : Libc.isspace c = true -> is_nul c = false.
Proof.
  unfold Libc.isspace, is_nul. intros H.
  destruct (Z.eqb_spec (char_code c) 0) as [E|_]; [|reflexivity].
  rewrite E in H. discriminate H.
Qed.

(** Text made of white space, a sign and a numeral does not start with the
    terminator, and ends where its characters end. *)
Lemma signed_text_first B ws sg D :
  forallb Libc.isspace ws = true -> is_numeral B D = true ->
  is_nul (cstr_get (ws ++ sign_text sg ++ D) 0) = false.
Proof.
  intros Hws HD. destruct ws as [|c ws]; simpl in *.
  - destruct sg; try reflexivity. simpl.
    destruct D as [|c D]; [discriminate|]. simpl in *.
    apply andb_prop in HD as [Hc _].
    destruct (is_digit_value B c Hc) as (d & Hd & _).
    destruct (digit_char c d Hd) as (_ & _ & _ & Hn & _). exact Hn.
  - apply andb_prop in Hws as [Hc _]. apply space_not_nul, Hc.
Qed.

Lemma cstr_get_end (s : cstr) : is_nul (cstr_get s (length s)) = true.
Proof. unfold cstr_get. rewrite nth_overflow by lia. reflexivity. Qed.

Lemma errno_test st : errno st <> Libc.ERANGE -> (errno st =? Libc.ERANGE) = false.
Proof. intros H. apply Z.eqb_neq, H. Qed.

(** White space, a sign and a numeral whose value fits: the whole text is
    accepted. *)
Lemma str2ull_signed B0 B ws sg D n st :
  B0 = 0 \/ 2 <= B0 <= 36 ->
  0 <= B ->
  forallb Libc.isspace ws = true ->
  Libc.scan_prefix B0 D = (B, O) ->
  is_numeral B D = true ->
  numeral_value B D <= ULLONG_MAX ->
  errno st <> Libc.ERANGE ->
  str2ull (Some (ws ++ sign_text sg ++ D)) (Some n) B0 st
  = Return ((SUCCESS,
             Some (if sign_minus sg then ull_wrap (- numeral_value B D)
                   else numeral_value B D)), st).
Proof.
  intros HB0 HB Hws Hpx HD Hfit He.
  refine (eq_trans
            (str2ull_converted _ n B0 st _ (signed_text_first B ws sg D Hws HD)
               (strtoull_signed B0 B ws sg D HB0 HB Hws Hpx HD)) _).
  cbv zeta.
  destruct (Z.ltb_spec ULLONG_MAX (numeral_value B D)) as [Hov|_]; [lia|].
  cbn [Libc.conv_erange Libc.conv_value Libc.conv_end].
  pose proof (is_numeral_length B D HD) as Hl.
  replace (Nat.eqb (length ws + length (sign_text sg) + 0 + length D) 0)
    with false by (symmetry; apply Nat.eqb_neq; lia).
  rewrite andb_false_r, (errno_test st He).
  replace (length ws + length (sign_text sg) + 0 + length D)%nat
    with (length (ws ++ sign_text sg ++ D))
    by (rewrite !length_app; lia).
  rewrite cstr_get_end. reflexivity.
Qed.

(** A numeral whose value does not fit, whatever [errno] was before. *)
Lemma str2ull_too_large B s n st :
  2 <= B <= 36 ->
  is_numeral B s = true ->
  ULLONG_MAX < numeral_value B s ->
  str2ull (Some s) (Some n) B st
  = Return ((OVERFLOW, Some n), set_errno Libc.ERANGE st).
Proof.
  intros HB Hs Hov.
  pose proof (strtoull_signed B B [] NoSign s (or_intror HB) ltac:(lia)
                eq_refl (scan_prefix_numeral B s HB Hs) Hs) as Hconv.
  pose proof (signed_text_first B [] NoSign s eq_refl Hs) as Hfirst.
  simpl app in Hconv, Hfirst.
  refine (eq_trans (str2ull_converted s n B st _ Hfirst Hconv) _). cbv zeta.
  destruct (Z.ltb_spec ULLONG_MAX (numeral_value B s)) as [_|Hle]; [|lia].
  cbn [Libc.conv_erange Libc.conv_value Libc.conv_end].
  reflexivity.
Qed.

(** A numeral of an explicit base whose value fits. *)
Lemma str2ull_numeral B s n st :
  2 <= B <= 36 ->
  is_numeral B s = true ->
  numeral_value B s <= ULLONG_MAX ->
  errno st <> Libc.ERANGE ->
  str2ull (Some s) (Some n) B st
  = Return ((SUCCESS, Some (numeral_value B s)), st).
Proof.
  intros HB Hs Hfit He.
  exact (str2ull_signed B B [] NoSign s n st (or_intror HB) ltac:(lia)
           eq_refl (scan_prefix_numeral B s HB Hs) Hs Hfit He).
Qed.

(** ** [num2bin]: what the caller reads back *)

Lemma num2bin_string v buf n :
  0 <= v <= ULLONG_MAX ->
  sigbits v + 1 <= n ->
  n <= Z.of_nat (length buf) ->
  n <= SIZE_MAX ->
  exists buf' res,
    num2bin v buf n = Done (buf', res)
    /\ cstring_at buf' res = Some (to_binary v).
Proof.
  intros Hv Hn Hlen Hmax.
  pose proof (sigbits_bound v Hv) as Hb.
  rewrite (num2bin_fits v buf n Hv Hn Hlen Hmax).
  eexists _, _. split; [reflexivity|].
  set (pre := take (Z.to_nat (n - 1 - sigbits v)) buf).
  assert (Hpre : n - 1 - sigbits v = Z.of_nat (length pre))
    by (unfold pre; rewrite length_take; lia).
  rewrite Hpre. apply cstring_at_written.
  apply (numeral_no_nul 2), to_binary_binary. lia.
Qed.

Lemma to_binary_head v : 0 < v -> head (to_binary v) = Some "1"%char.
Proof. intros H. destruct v as [|p|p]; try lia. apply bin_pos_head. Qed.

Lemma num2bin_loop_cut v fuel pre post :
  0 <= v ->
  (length (to_binary v) <= fuel)%nat ->
  (length pre < length (to_binary v))%nat ->
  Z.of_nat (length pre) < SIZE_MAX ->
  num2bin_loop fuel v (pre ++ post) (Z.of_nat (length pre) + 1)
  = Done (drop (length (to_binary v) - length pre) (to_binary v) ++ post, 0).
Proof.
  intros Hv Hfuel Hroom Hmax. destruct v as [|p|p]; [| |lia].
  - simpl to_binary in *. simpl length in *.
    destruct pre as [|x pre]; [|simpl in Hroom; lia].
    destruct fuel as [|fuel]; [lia|]. reflexivity.
  - simpl to_binary in *. rewrite bin_pos_length in *.
    apply num2bin_loop_short; assumption.
Qed.

Lemma num2bin_cut v buf n :
  0 <= v <= ULLONG_MAX ->
  1 <= n ->
  n < sigbits v + 1 ->
  n <= Z.of_nat (length buf) ->
  num2bin v buf n
  = Done (drop (Z.to_nat (sigbits v + 1 - n)) (to_binary v)
            ++ NUL :: drop (Z.to_nat n) buf,
          Ptr SIZE_MAX).
Proof.
  intros Hv Hn1 Hn Hlen.
  pose proof (sigbits_bound v Hv) as Hb.
  pose proof (to_binary_length v (proj1 Hv)) as Hd.
  pose proof (to_binary_fuel v Hv) as Hf.
  assert (Hmax : n <= SIZE_MAX) by (unfold SIZE_MAX; lia).
  destruct (split_at buf (Z.to_nat (n - 1))) as [x Hsplit]; [lia|].
  set (pre := take (Z.to_nat (n - 1)) buf) in *.
  assert (Hpre : length pre = Z.to_nat (n - 1))
    by (unfold pre; rewrite length_take; lia).
  replace (S (Z.to_nat (n - 1))) with (Z.to_nat n) in Hsplit by lia.
  set (post := drop (Z.to_nat n) buf) in *.
  assert (Hn' : n = Z.of_nat (length pre) + 1) by lia.
  unfold num2bin. rewrite size_wrap_small by lia.
  rewrite Hsplit at 1.
  replace (n - 1) with (Z.of_nat (length pre)) at 1 by lia.
  rewrite store_middle. rewrite Hn' at 1.
  rewrite num2bin_loop_cut by (unfold SIZE_MAX; lia).
  rewrite size_wrap_minus_one.
  replace (length (to_binary v) - length pre)%nat
    with (Z.to_nat (sigbits v + 1 - n)) by lia.
  reflexivity.
Qed.

(** [num2bin] has no path that returns a null pointer. *)
Lemma num2bin_not_NULL v buf n buf' res :
  num2bin v buf n = Done (buf', res) -> res <> NULL.
Proof.
  unfold num2bin. destruct (store buf (size_wrap (n - 1)) NUL); [|discriminate].
  destruct (num2bin_loop ULLONG_BITS v l n) as [[b k]| |]; try discriminate.
  intros H. injection H as _ <-. discriminate.
Qed.

(** The loop always leaves within [ULLONG_BITS] rounds, whatever the array
    and the capacity: the fuel of the model is never what stops it. *)
Lemma num2bin_loop_leaves p : forall fuel buf n,
  (Pos.size_nat p <= fuel)%nat ->
  num2bin_loop fuel (Zpos p) buf n <> Timeout.
Proof.
  induction p as [p IH|p IH|]; intros fuel buf n Hfuel;
    simpl Pos.size_nat in Hfuel;
    (destruct fuel as [|fuel]; [lia|]); cbn [num2bin_loop];
    (destruct (size_wrap (n - 1) =? 0); [discriminate|]);
    (destruct (store buf _ _) as [buf1|]; [|discriminate]).
  - rewrite half_xI. simpl (_ =? _). apply IH. lia.
  - rewrite half_xO. simpl (_ =? _). apply IH. lia.
  - discriminate.
Qed.

Lemma num2bin_leaves v buf n :
  0 <= v <= ULLONG_MAX -> num2bin v buf n <> Timeout.
Proof.
  intros Hv. pose proof (to_binary_fuel v Hv) as Hf.
  unfold num2bin. destruct (store buf _ NUL) as [buf1|]; [|discriminate].
  assert (Hloop : num2bin_loop ULLONG_BITS v buf1 n <> Timeout).
  { destruct v as [|p|p]; [| |lia].
    - unfold ULLONG_BITS. cbn [num2bin_loop].
      destruct (size_wrap (n - 1) =? 0); [discriminate|].
      destruct (store buf1 _ _); discriminate.
    - apply num2bin_loop_leaves. simpl in Hf. rewrite bin_pos_length in Hf.
      exact Hf. }
  destruct (num2bin_loop ULLONG_BITS v buf1 n) as [[b k]| |];
    [discriminate | discriminate | contradiction].
Qed.

(** A capacity of zero: the terminator is already written outside the
    array. *)
Lemma num2bin_zero_capacity v buf :
  Z.of_nat (length buf) <= SIZE_MAX -> num2bin v buf 0 = Fault.
Proof.
  intros H. unfold num2bin. rewrite size_wrap_minus_one.
  rewrite store_outside by lia. reflexivity.
Qed.

(** ** [errno] left over from an earlier call *)

(** [str2ull] tests [errno] after [strtoull] without having cleared it:
    entered with [errno] equal to [ERANGE], a numeral that fits is answered
    with [OVERFLOW]. *)
Lemma str2ull_numeral_stale B s n st :
  2 <= B <= 36 ->
  is_numeral B s = true ->
  numeral_value B s <= ULLONG_MAX ->
  errno st = Libc.ERANGE ->
  str2ull (Some s) (Some n) B st = Return ((OVERFLOW, Some n), st).
Proof.
  intros HB Hs Hfit He.
  pose proof (strtoull_signed B B [] NoSign s (or_intror HB) ltac:(lia)
                eq_refl (scan_prefix_numeral B s HB Hs) Hs) as Hconv.
  pose proof (signed_text_first B [] NoSign s eq_refl Hs) as Hfirst.
  simpl app in Hconv, Hfirst.
  refine (eq_trans (str2ull_converted s n B st _ Hfirst Hconv) _). cbv zeta.
  destruct (Z.ltb_spec ULLONG_MAX (numeral_value B s)) as [Hov|_]; [lia|].
  cbn [Libc.conv_erange Libc.conv_value Libc.conv_end sign_minus].
  pose proof (is_numeral_length B s Hs) as Hl.
  replace (Nat.eqb (length (@nil ascii) + length (sign_text NoSign) + 0 + length s) 0)
    with false by (symmetry; apply Nat.eqb_neq; simpl; lia).
  rewrite andb_false_r, He, Z.eqb_refl. reflexivity.
Qed.

(** That state is one [str2ull] brings about itself: after a call that
    returned [OVERFLOW], the next call finds [errno] still at [ERANGE]. *)
Lemma str2ull_after_overflow B s n st :
  2 <= B <= 36 ->
  is_numeral B s = true ->
  numeral_value B s <= ULLONG_MAX ->
  (do r <- str2ull (Some (cs "99999999999999999999")) (Some n) 10;
   str2ull (Some s) (snd r) B) st
  = Return ((OVERFLOW, Some n), set_errno Libc.ERANGE st).
Proof.
  intros HB Hs Hfit. unfold bind at 1.
  rewrite (str2ull_too_large 10 (cs "99999999999999999999") n st
             ltac:(lia) eq_refl eq_refl).
  cbn [snd]. apply str2ull_numeral_stale; auto.
Qed.

(** The conversion to [int] written out: the residue modulo 2^32, taken in
    the range of [int]. *)
Lemma int_of_ull_spec z :
  int_of_ull z
  = (if z mod 2 ^ 32 <? 2 ^ 31 then z mod 2 ^ 32 else z mod 2 ^ 32 - 2 ^ 32)
  /\ INT_MIN <= int_of_ull z <= INT_MAX.
Proof.
  split; [reflexivity|]. unfold int_of_ull, INT_MIN, INT_MAX.
  pose proof (Z.mod_pos_bound z (2 ^ 32) ltac:(lia)).
  destruct (Z.ltb_spec (z mod 2 ^ 32) (2 ^ 31)); lia.
Qed.

(** * The properties of the specification *)

(** C1 — Round trip.  For every value [V] of an [unsigned long long],
    [num2bin] run on [V] with an array of 1024 characters returns a string
    [s], the binary numeral of [V].  Read back by [str2ull] in base 2, [s]
    gives [SUCCESS] with exactly [V] stored when [errno] is not [ERANGE] on
    entry; but [str2ull] does not clear [errno] before it tests it, and
    entered with [errno] at [ERANGE] it answers the same [s] with
    [OVERFLOW] and stores nothing, so the round trip is lost. *)
Theorem num2bin_str2ull_round_trip V buf n st :
  0 <= V <= ULLONG_MAX ->
  length buf = 1024%nat ->
  exists buf' res s,
    num2bin V buf 1024 = Done (buf', res)
    /\ cstring_at buf' res = Some s
    /\ (errno st <> Libc.ERANGE ->
        str2ull (Some s) (Some n) 2 st = Return ((SUCCESS, Some V), st))
    /\ (errno st = Libc.ERANGE ->
        str2ull (Some s) (Some n) 2 st = Return ((OVERFLOW, Some n), st)).
Proof.
  intros HV Hlen.
  pose proof (sigbits_bound V HV) as Hb.
  destruct (num2bin_string V buf 1024 HV) as (buf' & res & Hrun & Hstr);
    [lia | rewrite Hlen; lia | unfold SIZE_MAX; lia |].
  exists buf', res, (to_binary V).
  assert (Hnum : is_numeral 2 (to_binary V) = true)
    by (apply to_binary_numeral; lia).
  assert (Hval : numeral_value 2 (to_binary V) = V)
    by (apply to_binary_value; lia).
  repeat split; [exact Hrun | exact Hstr | |].
  - intros He. rewrite <- Hval at 2.
    apply str2ull_numeral; [lia | exact Hnum | rewrite Hval; lia | exact He].
  - intros He.
    apply str2ull_numeral_stale; [lia | exact Hnum | rewrite Hval; lia | exact He].
Qed.

Lemma num2bin_str2ull_round_trip_witness :
  exists buf' res s,
    num2bin 5 (buffer 1024) 1024 = Done (buf', res)
    /\ cstring_at buf' res = Some s
    /\ (errno (set_errno Libc.ERANGE initial) <> Libc.ERANGE ->
        str2ull (Some s) (Some 0) 2 (set_errno Libc.ERANGE initial)
        = Return ((SUCCESS, Some 5), set_errno Libc.ERANGE initial))
    /\ (errno (set_errno Libc.ERANGE initial) = Libc.ERANGE ->
        str2ull (Some s) (Some 0) 2 (set_errno Libc.ERANGE initial)
        = Return ((OVERFLOW, Some 0), set_errno Libc.ERANGE initial)).
Proof.
  apply (num2bin_str2ull_round_trip 5 (buffer 1024) 0
           (set_errno Libc.ERANGE initial)).
  - unfold ULLONG_MAX. lia.
  - reflexivity.
Defined.

(** C4 — Shape of the output.  For every value [v] and every capacity [n]
    of at least the number of significant binary digits of [v] plus one,
    [num2bin] returns the minimal binary numeral of [v]: binary digits only,
    denoting [v], of length exactly the number of significant digits, with
    no leading zero unless [v] is zero, in which case it is the single
    character "0" (so for every capacity from 2 on). *)
Theorem num2bin_minimal_binary v buf n :
  0 <= v <= ULLONG_MAX ->
  sigbits v + 1 <= n ->
  n <= Z.of_nat (length buf) ->
  n <= SIZE_MAX ->
  exists buf' res s,
    num2bin v buf n = Done (buf', res)
    /\ cstring_at buf' res = Some s
    /\ s = to_binary v
    /\ is_numeral 2 s = true
    /\ numeral_value 2 s = v
    /\ Z.of_nat (length s) = sigbits v
    /\ (v <> 0 -> head s = Some "1"%char)
    /\ (v = 0 -> s = ["0"%char]).
Proof.
  intros Hv Hn Hlen Hmax.
  destruct (num2bin_string v buf n Hv Hn Hlen Hmax) as (buf' & res & Hrun & Hstr).
  exists buf', res, (to_binary v).
  repeat split; try assumption.
  - apply to_binary_numeral. lia.
  - apply to_binary_value. lia.
  - apply to_binary_length. lia.
  - intros Hnz. apply to_binary_head. lia.
  - intros ->. reflexivity.
Qed.

Lemma num2bin_minimal_binary_witness :
  exists buf' res s,
    num2bin 0 (buffer 2) 2 = Done (buf', res)
    /\ cstring_at buf' res = Some s
    /\ s = to_binary 0
    /\ is_numeral 2 s = true
    /\ numeral_value 2 s = 0
    /\ Z.of_nat (length s) = sigbits 0
    /\ (0 <> 0 -> head s = Some "1"%char)
    /\ (0 = 0 -> s = ["0"%char]).
Proof.
  apply (num2bin_minimal_binary 0 (buffer 2) 2).
  - unfold ULLONG_MAX. lia.
  - vm_compute. discriminate.
  - simpl. lia.
  - unfold SIZE_MAX. lia.
Defined.

(** C3 — Too small a capacity.  The specification, like the comment above
    the prototype of [num2bin], wants a null pointer whenever the capacity
    is smaller than the number of significant binary digits plus one.  What
    [num2bin] does there: it fills the array with the low digits it has room
    for, leaves the loop with [n = 0] and returns [&buf[n-1]], the position
    one before the start of the array; it never returns [NULL]. *)
Theorem num2bin_small_capacity v buf n :
  0 <= v <= ULLONG_MAX ->
  1 <= n ->
  n < sigbits v + 1 ->
  n <= Z.of_nat (length buf) ->
  exists buf',
    num2bin v buf n = Done (buf', Ptr SIZE_MAX)
    /\ buf' = drop (Z.to_nat (sigbits v + 1 - n)) (to_binary v)
                ++ NUL :: drop (Z.to_nat n) buf
    /\ Ptr SIZE_MAX <> NULL.
Proof.
  intros Hv Hn1 Hn Hlen. eexists. split; [|split; [reflexivity|discriminate]].
  apply num2bin_cut; assumption.
Qed.

Lemma num2bin_small_capacity_witness :
  exists buf',
    num2bin 4 (buffer 3) 3 = Done (buf', Ptr SIZE_MAX)
    /\ buf' = drop (Z.to_nat (sigbits 4 + 1 - 3)) (to_binary 4)
                ++ NUL :: drop (Z.to_nat 3) (buffer 3)
    /\ Ptr SIZE_MAX <> NULL.
Proof.
  apply (num2bin_small_capacity 4 (buffer 3) 3).
  - unfold ULLONG_MAX. lia.
  - lia.
  - vm_compute. reflexivity.
  - simpl. lia.
Defined.

(** C2 — The parser on numerals.  For every base [B] from 2 to 36 and
    every numeral [N] of base [B] (digits of the base only, letters in
    either case) whose value fits an [unsigned long long], [str2ull] returns
    [SUCCESS] and stores exactly the value [N] denotes when [errno] is not
    [ERANGE] on entry.  It does not clear [errno] before it tests it,
    though: entered with [errno] at [ERANGE] it returns [OVERFLOW] for the
    same [N] and stores nothing, and this is the state it is in right after
    a call of its own that overflowed. *)
Theorem str2ull_valid_numeral B N n st :
  2 <= B <= 36 ->
  is_numeral B N = true ->
  numeral_value B N <= ULLONG_MAX ->
  (errno st <> Libc.ERANGE ->
   str2ull (Some N) (Some n) B st
   = Return ((SUCCESS, Some (numeral_value B N)), st))
  /\ (errno st = Libc.ERANGE ->
      str2ull (Some N) (Some n) B st = Return ((OVERFLOW, Some n), st))
  /\ (do r <- str2ull (Some (cs "99999999999999999999")) (Some n) 10;
      str2ull (Some N) (snd r) B) st
     = Return ((OVERFLOW, Some n), set_errno Libc.ERANGE st).
Proof.
  intros HB HN Hfit. split; [|split].
  - apply str2ull_numeral; assumption.
  - apply str2ull_numeral_stale; assumption.
  - apply str2ull_after_overflow; assumption.
Qed.

Lemma str2ull_valid_numeral_witness :
  (errno initial <> Libc.ERANGE ->
   str2ull (Some (cs "Zz")) (Some 0) 36 initial
   = Return ((SUCCESS, Some (numeral_value 36 (cs "Zz"))), initial))
  /\ (errno initial = Libc.ERANGE ->
      str2ull (Some (cs "Zz")) (Some 0) 36 initial
      = Return ((OVERFLOW, Some 0), initial))
  /\ (do r <- str2ull (Some (cs "99999999999999999999")) (Some 0) 10;
      str2ull (Some (cs "Zz")) (snd r) 36) initial
     = Return ((OVERFLOW, Some 0), set_errno Libc.ERANGE initial).
Proof.
  apply (str2ull_valid_numeral 36 (cs "Zz") 0 initial).
  - lia.
  - reflexivity.
  - vm_compute. discriminate.
Defined.

(** C6 — Overflow leaves the variable alone.  For every numeral whose value
    exceeds the range of an [unsigned long long], [str2ull] returns
    [OVERFLOW] and the variable [num] points to keeps its content; the one
    thing that changes is [errno], now [ERANGE]. *)
Theorem str2ull_overflow_unchanged B N n st :
  2 <= B <= 36 ->
  is_numeral B N = true ->
  ULLONG_MAX < numeral_value B N ->
  str2ull (Some N) (Some n) B st
  = Return ((OVERFLOW, Some n), set_errno Libc.ERANGE st).
Proof. apply str2ull_too_large. Qed.

Lemma str2ull_overflow_unchanged_witness :
  str2ull (Some (cs "99999999999999999999")) (Some 7) 10 initial
  = Return ((OVERFLOW, Some 7), set_errno Libc.ERANGE initial).
Proof.
  apply (str2ull_overflow_unchanged 10 (cs "99999999999999999999") 7 initial).
  - lia.
  - reflexivity.
  - vm_compute. reflexivity.
Defined.

(** C7 — Partly valid against invalid.  On "12x" in base 10 [strtoull]
    stops in front of the "x"; [str2ull] returns [INCOMPLETE] with 12 stored
    when [errno] is not [ERANGE] on entry, but entered with [errno] at
    [ERANGE], which it never clears, it returns [OVERFLOW] and stores
    nothing.  On "x12" nothing is consumed: [str2ull] returns [FAILURE] and
    the variable keeps its content, whatever [errno] holds. *)
Theorem str2ull_partial_and_invalid n st :
  Libc.strtoull (cs "12x") 10 = Some (Libc.Conversion 12 2 false)
  /\ drop 2 (cs "12x") = cs "x"
  /\ (errno st <> Libc.ERANGE ->
      str2ull (Some (cs "12x")) (Some n) 10 st
      = Return ((INCOMPLETE, Some 12), st))
  /\ (errno st = Libc.ERANGE ->
      str2ull (Some (cs "12x")) (Some n) 10 st
      = Return ((OVERFLOW, Some n), st))
  /\ Libc.strtoull (cs "x12") 10 = Some (Libc.Conversion 0 0 false)
  /\ str2ull (Some (cs "x12")) (Some n) 10 st = Return ((FAILURE, Some n), st).
Proof.
  split; [reflexivity|]. split; [reflexivity|].
  split; [|split; [|split; [reflexivity|]]].
  - intros He.
    refine (eq_trans (str2ull_converted (cs "12x") n 10 st
                        (Libc.Conversion 12 2 false) eq_refl eq_refl) _).
    cbn. rewrite (errno_test st He). reflexivity.
  - intros He.
    refine (eq_trans (str2ull_converted (cs "12x") n 10 st
                        (Libc.Conversion 12 2 false) eq_refl eq_refl) _).
    cbn. rewrite He. reflexivity.
  - exact (str2ull_converted (cs "x12") n 10 st
             (Libc.Conversion 0 0 false) eq_refl eq_refl).
Qed.

Lemma str2ull_partial_and_invalid_witness :
  str2ull (Some (cs "12x")) (Some 7) 10 (set_errno Libc.ERANGE initial)
  = Return ((OVERFLOW, Some 7), set_errno Libc.ERANGE initial).
Proof.
  apply (str2ull_partial_and_invalid 7 (set_errno Libc.ERANGE initial)).
  reflexivity.
Defined.

(** C8 — Bounds of the base.  [ensurebase] leaves the process with the
    unsupported-base diagnostic exactly when its argument is outside 2..36,
    and returns the argument unchanged exactly when it is inside: 1 and 37
    fail, 2 and 36 pass. *)
Theorem ensurebase_bounds b st :
  (ensurebase b st = Exit 1 (UnsupportedBase b) <-> b < 2 \/ 36 < b)
  /\ (ensurebase b st = Return (b, st) <-> 2 <= b <= 36)
  /\ ensurebase 1 st = Exit 1 (UnsupportedBase 1)
  /\ ensurebase 37 st = Exit 1 (UnsupportedBase 37)
  /\ ensurebase 2 st = Return (2, st)
  /\ ensurebase 36 st = Return (36, st).
Proof.
  split; [|split; [|repeat split]].
  - unfold ensurebase, errx, ret.
    destruct (Z.ltb_spec b 2), (Z.ltb_spec 36 b); simpl;
      (split; [intros E; try discriminate E; lia | intros E; try lia; reflexivity]).
  - unfold ensurebase, errx, ret.
    destruct (Z.ltb_spec b 2), (Z.ltb_spec 36 b); simpl;
      (split; [intros E; try discriminate E; lia | intros E; try lia; reflexivity]).
Qed.

(** C5 — Degenerate input.  With a null string, a null [num] or a string
    that starts with the terminator, [str2ull] returns [INVALID_ARGS] for
    every base and changes nothing.  The program, though, does not stop on
    it: [ensurenum] has no case for [INVALID_ARGS] and returns what its
    local [temp] happened to hold, and [parseopts] stores that in
    [info.num]. *)
Theorem degenerate_input_not_fatal temp (s : cstr) (n : option Z) b st :
  str2ull None n b st = Return ((INVALID_ARGS, n), st)
  /\ str2ull (Some s) None b st = Return ((INVALID_ARGS, None), st)
  /\ str2ull (Some []) n b st = Return ((INVALID_ARGS, n), st)
  /\ str2ull (Some (NUL :: s)) n b st = Return ((INVALID_ARGS, n), st)
  /\ ensurenum temp (Some []) None b st = Return (temp, st)
  /\ ensurenum temp None None b st = Return (temp, st)
  /\ parseopts temp [] (Some []) st = Return (tt, set_num temp st).
Proof.
  repeat split; try reflexivity; destruct n; reflexivity.
Qed.

(** [repnum ""]: the line printed shows the indeterminate value, and the
    process ends with status 0. *)
Example main_empty_operand :
  main 99 (buffer 1024) (Some []) [] (Some []) initial
  = Return (Report 99 (cs "1100011"), set_num 99 initial).
Proof. vm_compute. reflexivity. Qed.

(** [repnum] without an operand, by contrast, leaves with status 1. *)
Example main_no_operand :
  main 99 (buffer 1024) None [] None initial = Exit 1 HelpText.
Proof. reflexivity. Qed.

(** C9 — Minus signs.  A numeral with a minus sign in front is accepted:
    "-1" in base 10 gives [SUCCESS] with the largest [unsigned long long]
    stored. *)
Lemma str2ull_minus_one_accepted :
  head (cs "-1") = Some "-"%char
  /\ str2ull (Some (cs "-1")) (Some 0) 10 initial
     = Return ((SUCCESS, Some 18446744073709551615), initial).
Proof. split; vm_compute; reflexivity. Qed.

(** C9, as the code has it — [strtoull] takes an optional sign, so when
    [errno] is not [ERANGE] on entry, for every explicit base from 2 to 36,
    and for base 0 on a decimal numeral without a leading zero, white space,
    a minus sign and a numeral whose value [v] fits give [SUCCESS]; what is
    stored is [v] negated in [unsigned long long] arithmetic,
    [(2^64 - v) mod 2^64], never a negative number. *)
Theorem str2ull_minus_sign_wraps B0 B ws D n st :
  (2 <= B0 <= 36 /\ B = B0) \/ (B0 = 0 /\ B = 10 /\ head D <> Some "0"%char) ->
  forallb Libc.isspace ws = true ->
  is_numeral B D = true ->
  numeral_value B D <= ULLONG_MAX ->
  errno st <> Libc.ERANGE ->
  str2ull (Some (ws ++ "-"%char :: D)) (Some n) B0 st
  = Return ((SUCCESS, Some (ull_wrap (- numeral_value B D))), st)
  /\ ull_wrap (- numeral_value B D) = (2 ^ 64 - numeral_value B D) mod 2 ^ 64
  /\ 0 <= ull_wrap (- numeral_value B D) <= ULLONG_MAX.
Proof.
  intros HB Hws HD Hfit He. split; [|split].
  - assert (Hpx : Libc.scan_prefix B0 D = (B, O)).
    { destruct HB as [[HB ->]|(-> & -> & Hz)].
      - apply scan_prefix_numeral; assumption.
      - apply scan_prefix_decimal; assumption. }
    exact (str2ull_signed B0 B ws Minus D n st ltac:(lia) ltac:(lia)
             Hws Hpx HD Hfit He).
  - unfold ull_wrap.
    replace (2 ^ 64 - numeral_value B D) with (- numeral_value B D + 1 * 2 ^ 64) by lia.
    rewrite Z.mod_add by lia. reflexivity.
  - unfold ull_wrap, ULLONG_MAX.
    pose proof (Z.mod_pos_bound (- numeral_value B D) (2 ^ 64) ltac:(lia)). lia.
Qed.

Lemma str2ull_minus_sign_wraps_witness :
  str2ull (Some (cs "  " ++ "-"%char :: cs "1f")) (Some 0) 16 initial
  = Return ((SUCCESS, Some (ull_wrap (- numeral_value 16 (cs "1f")))), initial)
  /\ ull_wrap (- numeral_value 16 (cs "1f"))
     = (2 ^ 64 - numeral_value 16 (cs "1f")) mod 2 ^ 64
  /\ 0 <= ull_wrap (- numeral_value 16 (cs "1f")) <= ULLONG_MAX.
Proof.
  apply (str2ull_minus_sign_wraps 16 16 (cs "  ") (cs "1f") 0 initial).
  - left. lia.
  - reflexivity.
  - reflexivity.
  - vm_compute. discriminate.
  - vm_compute. discriminate.
Defined.

(** ** The driver *)

Lemma ensurenum_numeral temp B s st :
  2 <= B <= 36 ->
  is_numeral B s = true ->
  numeral_value B s <= ULLONG_MAX ->
  errno st <> Libc.ERANGE ->
  ensurenum temp (Some s) None B st = Return (numeral_value B s, st).
Proof.
  intros HB Hs Hfit He. unfold ensurenum, bind.
  rewrite (str2ull_numeral B s temp st HB Hs Hfit He). reflexivity.
Qed.

(** [str2ull] hands back [SUCCESS] or [INVALID_ARGS] only with [errno]
    other than [ERANGE], when it was entered so. *)
Lemma str2ull_errno s n b st c n' st' :
  errno st <> Libc.ERANGE ->
  str2ull s n b st = Return ((c, n'), st') ->
  c = SUCCESS \/ c = INVALID_ARGS ->
  errno st' <> Libc.ERANGE.
Proof.
  intros He Hrun Hc. unfold str2ull in Hrun.
  destruct s as [s|]; [|injection Hrun as _ _ <-; exact He].
  destruct n as [n|]; [|injection Hrun as _ _ <-; exact He].
  destruct (is_nul (cstr_get s 0)); [injection Hrun as _ _ <-; exact He|].
  unfold bind, call_strtoull in Hrun.
  destruct (Libc.strtoull s b) as [r|]; [|discriminate Hrun].
  unfold bind, modify, ret, get_errno in Hrun.
  destruct (Libc.conv_erange r);
    destruct ((Libc.conv_value r =? 0) && Nat.eqb (Libc.conv_end r) 0);
    try (injection Hrun as <- _ _; destruct Hc; discriminate);
    match type of Hrun with
    | context [errno ?x =? _] => destruct (Z.eqb_spec (errno x) Libc.ERANGE)
    end;
    try (injection Hrun as <- _ _; destruct Hc; discriminate);
    injection Hrun as _ _ <-; assumption.
Qed.

(** So every call of [ensurenum] that returns leaves [errno] other than
    [ERANGE] for the next one. *)
Lemma ensurenum_errno temp s n b st v st' :
  errno st <> Libc.ERANGE ->
  ensurenum temp s n b st = Return (v, st') ->
  errno st' <> Libc.ERANGE.
Proof.
  intros He Hrun. unfold ensurenum, bind in Hrun.
  destruct (str2ull s _ b st) as [[[c n'] st1]| |] eqn:Hs; try discriminate Hrun.
  destruct c; try discriminate Hrun;
    (destruct n' as [w|]; [|discriminate Hrun]);
    injection Hrun as _ <-;
    eapply str2ull_errno; eauto.
Qed.

(** C10 — The base given to [-b] is narrowed before it is checked.  The
    text of the option is read as an [unsigned long long] [v] in base 10
    and converted to [int] on its way into [ensurebase]: [ensurebase] is
    run on the residue of [v] modulo 2^32 read as a 32-bit two's complement
    number, and on nothing else.  Whenever the residue lies in 2..36 the
    option is accepted and the residue is what is stored in [info.base],
    [info.num] and [errno] staying as they were; otherwise the program ends
    with the unsupported-base diagnostic showing the narrowed value.  So
    4294967298 is taken as base 2, 4294967297 is refused as base 1, and
    2147483650 is refused as base -2147483646. *)
Theorem base_option_narrowed temp D st :
  is_numeral 10 D = true ->
  numeral_value 10 D <= ULLONG_MAX ->
  errno st <> Libc.ERANGE ->
  case_b temp D st
  = (do b <- ensurebase
               (if numeral_value 10 D mod 2 ^ 32 <? 2 ^ 31
                then numeral_value 10 D mod 2 ^ 32
                else numeral_value 10 D mod 2 ^ 32 - 2 ^ 32);
     modify (set_base b)) st
  /\ (2 <= numeral_value 10 D mod 2 ^ 32 <= 36 ->
      case_b temp D st
      = Return (tt, State (Numinfo (num (info st))
                                   (numeral_value 10 D mod 2 ^ 32))
                          (errno st)))
  /\ (~ 2 <= numeral_value 10 D mod 2 ^ 32 <= 36 ->
      case_b temp D st
      = Exit 1 (UnsupportedBase
                  (if numeral_value 10 D mod 2 ^ 32 <? 2 ^ 31
                   then numeral_value 10 D mod 2 ^ 32
                   else numeral_value 10 D mod 2 ^ 32 - 2 ^ 32)))
  /\ case_b temp (cs "4294967298") st
     = Return (tt, State (Numinfo (num (info st)) 2) (errno st))
  /\ case_b temp (cs "4294967297") st = Exit 1 (UnsupportedBase 1)
  /\ case_b temp (cs "2147483650") st
     = Exit 1 (UnsupportedBase (-2147483646)).
Proof.
  intros HD Hfit He.
  assert (Hcase : forall s, is_numeral 10 s = true ->
            numeral_value 10 s <= ULLONG_MAX ->
            case_b temp s st
            = (do b <- ensurebase
                         (if numeral_value 10 s mod 2 ^ 32 <? 2 ^ 31
                          then numeral_value 10 s mod 2 ^ 32
                          else numeral_value 10 s mod 2 ^ 32 - 2 ^ 32);
               modify (set_base b)) st).
  { intros s Hs Hv. unfold case_b at 1. unfold bind at 1.
    rewrite (ensurenum_numeral temp 10 s st ltac:(lia) Hs Hv He).
    rewrite (proj1 (int_of_ull_spec (numeral_value 10 s))). reflexivity. }
  pose proof (Z.mod_pos_bound (numeral_value 10 D) (2 ^ 32) ltac:(lia)) as Hr.
  split; [exact (Hcase D HD Hfit)|]. split; [|split; [|repeat split]].
  - intros Hin. rewrite (Hcase D HD Hfit).
    destruct (Z.ltb_spec (numeral_value 10 D mod 2 ^ 32) (2 ^ 31)); [|lia].
    unfold bind, ensurebase.
    destruct (Z.ltb_spec (numeral_value 10 D mod 2 ^ 32) 2); [lia|].
    destruct (Z.ltb_spec 36 (numeral_value 10 D mod 2 ^ 32)); [lia|].
    reflexivity.
  - intros Hout. rewrite (Hcase D HD Hfit).
    unfold bind, ensurebase, errx.
    destruct (Z.ltb_spec (numeral_value 10 D mod 2 ^ 32) (2 ^ 31)).
    + destruct (Z.ltb_spec (numeral_value 10 D mod 2 ^ 32) 2); [reflexivity|].
      destruct (Z.ltb_spec 36 (numeral_value 10 D mod 2 ^ 32)); [reflexivity|].
      lia.
    + destruct (Z.ltb_spec (numeral_value 10 D mod 2 ^ 32 - 2 ^ 32) 2);
        [reflexivity | lia].
  - rewrite (Hcase (cs "4294967298") eq_refl ltac:(vm_compute; discriminate)).
    reflexivity.
  - rewrite (Hcase (cs "4294967297") eq_refl ltac:(vm_compute; discriminate)).
    reflexivity.
  - rewrite (Hcase (cs "2147483650") eq_refl ltac:(vm_compute; discriminate)).
    reflexivity.
Qed.

Lemma base_option_narrowed_witness :
  case_b 0 (cs "4294967298") initial
  = (do b <- ensurebase
               (if numeral_value 10 (cs "4294967298") mod 2 ^ 32 <? 2 ^ 31
                then numeral_value 10 (cs "4294967298") mod 2 ^ 32
                else numeral_value 10 (cs "4294967298") mod 2 ^ 32 - 2 ^ 32);
     modify (set_base b)) initial
  /\ (2 <= numeral_value 10 (cs "4294967298") mod 2 ^ 32 <= 36 ->
      case_b 0 (cs "4294967298") initial
      = Return (tt, State (Numinfo (num (info initial))
                                   (numeral_value 10 (cs "4294967298") mod 2 ^ 32))
                          (errno initial)))
  /\ (~ 2 <= numeral_value 10 (cs "4294967298") mod 2 ^ 32 <= 36 ->
      case_b 0 (cs "4294967298") initial
      = Exit 1 (UnsupportedBase
                  (if numeral_value 10 (cs "4294967298") mod 2 ^ 32 <? 2 ^ 31
                   then numeral_value 10 (cs "4294967298") mod 2 ^ 32
                   else numeral_value 10 (cs "4294967298") mod 2 ^ 32 - 2 ^ 32)))
  /\ case_b 0 (cs "4294967298") initial
     = Return (tt, State (Numinfo (num (info initial)) 2) (errno initial))
  /\ case_b 0 (cs "4294967297") initial = Exit 1 (UnsupportedBase 1)
  /\ case_b 0 (cs "2147483650") initial
     = Exit 1 (UnsupportedBase (-2147483646)).
Proof.
  apply (base_option_narrowed 0 (cs "4294967298") initial).
  - reflexivity.
  - vm_compute. discriminate.
  - vm_compute. discriminate.
Defined.

(** [repnum -b 4294967298 101] prints five. *)
Example main_wide_base :
  main 0 (buffer 1024) (Some (cs "-b")) [OptBase (cs "4294967298")]
       (Some (cs "101")) initial
  = Return (Report 5 (cs "101"), State (Numinfo 5 2) 0).
Proof. vm_compute. reflexivity. Qed.

(** Running the options keeps [errno] off [ERANGE] too, so it is off
    [ERANGE] at every call of [str2ull] the program makes from [initial]. *)
Lemma parseopts_loop_errno temp opts : forall st st',
  errno st <> Libc.ERANGE ->
  parseopts_loop temp opts st = Return (tt, st') ->
  errno st' <> Libc.ERANGE.
Proof.
  induction opts as [|o opts IH]; intros st st' He Hrun.
  - injection Hrun as <-. exact He.
  - destruct o as [|optarg| |]; try discriminate Hrun.
    cbn [parseopts_loop] in Hrun. unfold bind at 1 in Hrun.
    destruct (case_b temp optarg st) as [[[] st1]| |] eqn:Hb;
      try discriminate Hrun.
    apply (IH st1 st'); [|exact Hrun].
    unfold case_b, bind in Hb.
    destruct (ensurenum temp (Some optarg) None 10 st) as [[v st2]| |] eqn:Hn;
      try discriminate Hb.
    pose proof (ensurenum_errno _ _ _ _ _ _ _ He Hn) as He2.
    destruct (ensurebase (int_of_ull v) st2) as [[b st3]| |] eqn:Hbase;
      try discriminate Hb.
    unfold ensurebase, errx, ret in Hbase.
    destruct ((int_of_ull v <? 2) || (36 <? int_of_ull v));
      [discriminate Hbase|].
    injection Hbase as _ <-. injection Hb as <-. exact He2.
Qed.

(** * Further properties of the code *)

(** ** What [strtoull] can return *)

Lemma digit_in_range B c d : Libc.digit_in B c = Some d -> 0 <= d < B.
Proof.
  unfold Libc.digit_in. rewrite digit_value_libc.
  destruct (digit_value c) as [d0|] eqn:E; [|discriminate].
  destruct (Z.ltb_spec d0 B) as [Hlt|_]; [|discriminate].
  intros Hd. injection Hd as <-.
  destruct (digit_char c d0 E) as (_ & _ & _ & _ & _ & H0). lia.
Qed.

Lemma scan_digits_lower B s : forall acc v k,
  0 <= B -> 0 <= acc -> Libc.scan_digits B s acc = (v, k) -> 0 <= v.
Proof.
  induction s as [|c s IH]; intros acc v k HB Hacc H; simpl in H.
  - injection H as <- _. exact Hacc.
  - destruct (Libc.digit_in B c) as [d|] eqn:Ed.
    + destruct (Libc.scan_digits B s (acc * B + d)) as [v' k'] eqn:Es.
      injection H as <- _.
      apply (IH (acc * B + d) v' k' HB); [|exact Es].
      pose proof (digit_in_range B c d Ed). nia.
    + injection H as <- _. exact Hacc.
Qed.

Lemma scan_prefix_base B0 s B px :
  B0 = 0 \/ 2 <= B0 <= 36 ->
  Libc.scan_prefix B0 s = (B, px) -> 2 <= B <= 36.
Proof.
  intros HB0. unfold Libc.scan_prefix.
  destruct s as [|c s].
  - destruct (Z.eqb_spec B0 0); intros H; injection H as <- _; lia.
  - destruct (Ascii.eqb c "0").
    + destruct (((B0 =? 0) || (B0 =? 16)) && Libc.is_x (cstr_get s 0)).
      * intros H; injection H as <- _; lia.
      * destruct (Z.eqb_spec B0 0); intros H; injection H as <- _; lia.
    + destruct (Z.eqb_spec B0 0); intros H; injection H as <- _; lia.
Qed.

Lemma ull_wrap_range z : 0 <= ull_wrap z <= ULLONG_MAX.
Proof.
  unfold ull_wrap, ULLONG_MAX.
  pose proof (Z.mod_pos_bound z (2 ^ 64) ltac:(lia)). lia.
Qed.

(** With a base the standard allows, [strtoull] always converts, and to a
    value an [unsigned long long] holds. *)
Lemma strtoull_defined s b :
  b = 0 \/ 2 <= b <= 36 ->
  exists r, Libc.strtoull s b = Some r /\ 0 <= Libc.conv_value r <= ULLONG_MAX.
Proof.
  intros Hb. unfold Libc.strtoull.
  replace ((b <? 0) || (b =? 1) || (36 <? b)) with false
    by (symmetry; repeat (apply orb_false_intro);
        [apply Z.ltb_ge | apply Z.eqb_neq | apply Z.ltb_ge]; lia).
  destruct (Libc.scan_sign _) as [negative sg].
  destruct (Libc.scan_prefix b _) as [B px] eqn:Epx.
  pose proof (scan_prefix_base b _ B px Hb Epx) as HB.
  destruct (Libc.scan_digits B _ 0) as [v k] eqn:Ed.
  pose proof (scan_digits_lower B _ 0 v k ltac:(lia) ltac:(lia) Ed) as Hv.
  destruct k as [|k].
  - destruct px; eexists; (split; [reflexivity|]); simpl; unfold ULLONG_MAX; lia.
  - destruct (Z.ltb_spec ULLONG_MAX v); eexists; (split; [reflexivity|]); simpl.
    + unfold ULLONG_MAX; lia.
    + destruct negative; [apply ull_wrap_range | lia].
Qed.

Lemma strtoull_range s b r :
  Libc.strtoull s b = Some r -> 0 <= Libc.conv_value r <= ULLONG_MAX.
Proof.
  intros H.
  assert (Hb : b = 0 \/ 2 <= b <= 36).
  { unfold Libc.strtoull in H.
    destruct (Z.ltb_spec b 0); [discriminate|].
    destruct (Z.eqb_spec b 1); [discriminate|].
    destruct (Z.ltb_spec 36 b); [discriminate|]. lia. }
  destruct (strtoull_defined s b Hb) as (r' & Hr' & Hrange).
  rewrite H in Hr'. injection Hr' as <-. exact Hrange.
Qed.

(** ** The contract of [str2ull] *)

(** Every way [str2ull] can return, read off its branches. *)
Lemma str2ull_cases s n b st c n' st' :
  str2ull s n b st = Return ((c, n'), st') ->
  info st' = info st
  /\ (errno st' = errno st \/ errno st' = Libc.ERANGE)
  /\ (((c = FAILURE \/ c = INVALID_ARGS \/ c = OVERFLOW) /\ n' = n)
      \/ ((c = SUCCESS \/ c = INCOMPLETE)
          /\ errno st' <> Libc.ERANGE
          /\ exists v, n' = Some v /\ 0 <= v <= ULLONG_MAX)).
Proof.
  intros Hrun. unfold str2ull in Hrun.
  destruct s as [s|]; [|injection Hrun as <- <- <-; auto 10].
  destruct n as [n|]; [|injection Hrun as <- <- <-; auto 10].
  destruct (is_nul (cstr_get s 0)); [injection Hrun as <- <- <-; auto 10|].
  unfold bind, call_strtoull in Hrun.
  destruct (Libc.strtoull s b) as [r|] eqn:Hr; [|discriminate Hrun].
  pose proof (strtoull_range s b r Hr) as Hv.
  unfold bind, modify, ret, get_errno in Hrun.
  destruct (Libc.conv_erange r);
    destruct ((Libc.conv_value r =? 0) && Nat.eqb (Libc.conv_end r) 0);
    try (injection Hrun as <- <- <-; simpl; auto 10);
    match type of Hrun with
    | context [errno ?x =? _] => destruct (Z.eqb_spec (errno x) Libc.ERANGE)
    end;
    injection Hrun as <- <- <-; simpl; try (auto 10; fail);
    (split; [reflexivity|]); (split; [auto|]); right;
    (split; [destruct (is_nul _); auto|]); (split; [assumption|]); eauto.
Qed.

(** [str2ull] keeps the promise of its comment for every input: with
    [FAILURE], [INVALID_ARGS] or [OVERFLOW] the variable is not changed; with
    [SUCCESS] or [INCOMPLETE] it holds a value of the [unsigned long long]
    range.  The global [info] is never touched and [errno] is either left
    alone or set to [ERANGE]. *)
Theorem str2ull_contract s n b st c n' st' :
  str2ull s n b st = Return ((c, n'), st') ->
  info st' = info st
  /\ (errno st' = errno st \/ errno st' = Libc.ERANGE)
  /\ (c = FAILURE \/ c = INVALID_ARGS \/ c = OVERFLOW -> n' = n)
  /\ (c = SUCCESS \/ c = INCOMPLETE ->
      exists v, n' = Some v /\ 0 <= v <= ULLONG_MAX).
Proof.
  intros Hrun.
  destruct (str2ull_cases s n b st c n' st' Hrun) as (Hi & He & Hc).
  repeat split; try assumption.
  - intros Hbad. destruct Hc as [[_ Hn]|[[-> | ->] _]]; [exact Hn| |];
      destruct Hbad as [H|[H|H]]; discriminate H.
  - intros Hgood. destruct Hc as [[[-> | [-> | ->]] _]|(_ & _ & Hv)];
      [destruct Hgood as [H|H]; discriminate H ..|exact Hv].
Qed.

Lemma str2ull_contract_witness :
  info initial = info initial
  /\ (errno initial = errno initial \/ errno initial = Libc.ERANGE)
  /\ (INCOMPLETE = FAILURE \/ INCOMPLETE = INVALID_ARGS \/ INCOMPLETE = OVERFLOW ->
      Some 12 = Some 7)
  /\ (INCOMPLETE = SUCCESS \/ INCOMPLETE = INCOMPLETE ->
      exists v, Some 12 = Some v /\ 0 <= v <= ULLONG_MAX).
Proof.
  apply (str2ull_contract (Some (cs "12x")) (Some 7) 10 initial
           INCOMPLETE (Some 12) initial).
  vm_compute. reflexivity.
Defined.

(** [str2ull] does not clear [errno] before it calls [strtoull]: entered
    with [errno] equal to [ERANGE], it reports [OVERFLOW] and stores nothing
    even for a numeral whose value fits. *)
Theorem str2ull_stale_errno B N n st :
  2 <= B <= 36 ->
  is_numeral B N = true ->
  numeral_value B N <= ULLONG_MAX ->
  errno st = Libc.ERANGE ->
  str2ull (Some N) (Some n) B st = Return ((OVERFLOW, Some n), st).
Proof.
  intros HB HN Hfit He.
  pose proof (strtoull_signed B B [] NoSign N (or_intror HB) ltac:(lia)
                eq_refl (scan_prefix_numeral B N HB HN) HN) as Hconv.
  pose proof (signed_text_first B [] NoSign N eq_refl HN) as Hfirst.
  simpl app in Hconv, Hfirst.
  refine (eq_trans (str2ull_converted N n B st _ Hfirst Hconv) _). cbv zeta.
  destruct (Z.ltb_spec ULLONG_MAX (numeral_value B N)) as [Hov|_]; [lia|].
  cbn [Libc.conv_erange Libc.conv_value Libc.conv_end sign_minus].
  pose proof (is_numeral_length B N HN) as Hl.
  replace (Nat.eqb (length (@nil ascii) + length (sign_text NoSign) + 0 + length N) 0)
    with false by (symmetry; apply Nat.eqb_neq; simpl; lia).
  rewrite andb_false_r, He, Z.eqb_refl. reflexivity.
Qed.

Lemma str2ull_stale_errno_witness :
  str2ull (Some (cs "1")) (Some 7) 2 (set_errno Libc.ERANGE initial)
  = Return ((OVERFLOW, Some 7), set_errno Libc.ERANGE initial).
Proof.
  apply (str2ull_stale_errno 2 (cs "1") 7 (set_errno Libc.ERANGE initial)).
  - lia.
  - reflexivity.
  - vm_compute. discriminate.
  - reflexivity.
Defined.

(** ** Text after the numeral, and text without one *)

Lemma scan_digits_stop B D tail : forall acc,
  forallb (is_digit B) D = true ->
  (forall c, head tail = Some c -> is_digit B c = false) ->
  Libc.scan_digits B (D ++ tail) acc = (fold_left (horner B) D acc, length D).
Proof.
  induction D as [|d D IH]; intros acc HD Htail; simpl in *.
  - destruct tail as [|c tail]; [reflexivity|]. simpl.
    rewrite (digit_in_none B c (Htail c eq_refl)). reflexivity.
  - apply andb_prop in HD as [Hd HD].
    rewrite (digit_in_numeral B d Hd), (IH _ HD Htail). reflexivity.
Qed.

Lemma skip_spaces_digit B sg c t :
  is_digit B c = true -> Libc.skip_spaces (sign_text sg ++ c :: t) = O.
Proof.
  intros Hc. destruct sg; try reflexivity. simpl.
  destruct (is_digit_value B c Hc) as (d & Hd & _).
  destruct (digit_char c d Hd) as (Hs & _). rewrite Hs. reflexivity.
Qed.

Lemma scan_sign_digit B sg c t :
  is_digit B c = true ->
  Libc.scan_sign (sign_text sg ++ c :: t) = (sign_minus sg, length (sign_text sg)).
Proof.
  intros Hc. destruct sg; try reflexivity. simpl.
  destruct (is_digit_value B c Hc) as (d & Hd & _).
  destruct (digit_char c d Hd) as (_ & Hm & Hp & _).
  unfold Libc.scan_sign. rewrite Hm, Hp. reflexivity.
Qed.

(** The conversion when something that is not a digit follows the numeral:
    it ends where the numeral ends. *)
Lemma strtoull_tail B0 B ws sg D tail :
  B0 = 0 \/ 2 <= B0 <= 36 ->
  forallb Libc.isspace ws = true ->
  Libc.scan_prefix B0 (D ++ tail) = (B, O) ->
  is_numeral B D = true ->
  (forall c, head tail = Some c -> is_digit B c = false) ->
  Libc.strtoull (ws ++ sign_text sg ++ D ++ tail) B0
  = let v := numeral_value B D in
    let e := (length ws + length (sign_text sg) + 0 + length D)%nat in
    Some (if ULLONG_MAX <? v then Libc.Conversion ULLONG_MAX e true
          else Libc.Conversion (if sign_minus sg then ull_wrap (- v) else v)
                               e false).
Proof.
  intros HB0 Hws Hpx HD Htail. unfold Libc.strtoull.
  replace ((B0 <? 0) || (B0 =? 1) || (36 <? B0)) with false
    by (symmetry; repeat (apply orb_false_intro);
        [apply Z.ltb_ge | apply Z.eqb_neq | apply Z.ltb_ge]; lia).
  pose proof (is_numeral_all B D HD) as Hall.
  pose proof (is_numeral_length B D HD) as Hl.
  destruct D as [|d D]; [discriminate HD|].
  assert (Hd : is_digit B d = true)
    by (simpl in Hall; apply andb_prop in Hall as [Hd _]; exact Hd).
  change ((d :: D) ++ tail) with (d :: (D ++ tail)) in *.
  rewrite (skip_spaces_app ws _ Hws (skip_spaces_digit B sg d _ Hd)).
  rewrite drop_app_length.
  rewrite (scan_sign_digit B sg d _ Hd).
  rewrite drop_app_length, Hpx. rewrite drop_0.
  change (d :: (D ++ tail)) with ((d :: D) ++ tail).
  rewrite (scan_digits_stop B (d :: D) tail 0 Hall Htail).
  fold (numeral_value B (d :: D)).
  simpl length. cbv zeta.
  destruct (ULLONG_MAX <? numeral_value B (d :: D)); reflexivity.
Qed.

(** An explicit base skips no prefix, unless it is 16 and the text starts
    with a zero and an [x]. *)
Lemma scan_prefix_tail B D tail :
  2 <= B <= 36 ->
  is_numeral B D = true ->
  (B = 16 -> D = ["0"%char] -> forall c, head tail = Some c -> Libc.is_x c = false) ->
  Libc.scan_prefix B (D ++ tail) = (B, O).
Proof.
  intros HB HD Hx. unfold Libc.scan_prefix.
  destruct D as [|d D]; [discriminate HD|]. simpl app.
  destruct (Z.eqb_spec B 0) as [E|_]; [lia|]. simpl orb.
  destruct (Ascii.eqb_spec d "0") as [->|_]; [|reflexivity].
  destruct (Z.eqb_spec B 16) as [->|_]; [|reflexivity]. simpl andb.
  destruct (Libc.is_x (cstr_get (D ++ tail) 0)) eqn:Ex; [|reflexivity].
  exfalso. destruct D as [|d' D].
  - destruct tail as [|c tail]; [discriminate Ex|].
    change (Libc.is_x c = true) in Ex.
    rewrite (Hx eq_refl eq_refl c eq_refl) in Ex. discriminate Ex.
  - change (Libc.is_x d' = true) in Ex.
    pose proof (is_numeral_all _ _ HD) as Hall. cbn [forallb] in Hall.
    apply andb_prop in Hall as [_ Hall]. apply andb_prop in Hall as [Hd' _].
    destruct (is_digit_value 16 d' Hd') as (v & Hv & Hr).
    destruct (digit_char d' v Hv) as (_ & _ & _ & _ & Hx' & _).
    specialize (Hx' Ex). lia.
Qed.

Lemma cstr_get_middle (D : cstr) c rest : cstr_get (D ++ c :: rest) (length D) = c.
Proof. unfold cstr_get. apply nth_middle. Qed.

(** A numeral with other text behind it: [str2ull] stores the value of the
    numeral and returns [INCOMPLETE], and [ensurenum] stops the program with
    status 1.  In base 16 a lone zero in front of an [x] is the one case set
    aside: there the text may be a prefix. *)
Theorem str2ull_trailing_text B D c rest n temp st :
  2 <= B <= 36 ->
  is_numeral B D = true ->
  numeral_value B D <= ULLONG_MAX ->
  is_digit B c = false ->
  is_nul c = false ->
  (B = 16 -> D = ["0"%char] -> Libc.is_x c = false) ->
  errno st <> Libc.ERANGE ->
  str2ull (Some (D ++ c :: rest)) (Some n) B st
  = Return ((INCOMPLETE, Some (numeral_value B D)), st)
  /\ ensurenum temp (Some (D ++ c :: rest)) None B st
     = Exit 1 (NotValidNumber (Some (D ++ c :: rest)) B).
Proof.
  intros HB HD Hfit Hc Hnul Hx He.
  assert (Htail : forall c', head (c :: rest) = Some c' -> is_digit B c' = false)
    by (intros c' E; injection E as <-; exact Hc).
  assert (Hpx : Libc.scan_prefix B (D ++ c :: rest) = (B, O)).
  { apply scan_prefix_tail; try assumption.
    intros E16 ED c' E. injection E as <-. auto. }
  pose proof (strtoull_tail B B [] NoSign D (c :: rest) (or_intror HB) eq_refl
                Hpx HD Htail) as Hconv.
  simpl app in Hconv. cbv zeta in Hconv.
  destruct (Z.ltb_spec ULLONG_MAX (numeral_value B D)) as [Hov|_]; [lia|].
  simpl in Hconv.
  assert (Hfirst : is_nul (cstr_get (D ++ c :: rest) 0) = false).
  { destruct D as [|d D]; [discriminate HD|]. simpl in HD.
    apply andb_prop in HD as [Hd _].
    destruct (is_digit_value B d Hd) as (v & Hv & _).
    destruct (digit_char d v Hv) as (_ & _ & _ & Hn & _). exact Hn. }
  pose proof (is_numeral_length B D HD) as Hl.
  assert (Hrun : forall m, str2ull (Some (D ++ c :: rest)) (Some m) B st
                           = Return ((INCOMPLETE, Some (numeral_value B D)), st)).
  { intros m.
    refine (eq_trans (str2ull_converted _ m B st _ Hfirst Hconv) _).
    cbn [Libc.conv_erange Libc.conv_value Libc.conv_end]. cbv zeta.
    replace (Nat.eqb (length D) 0) with false
      by (symmetry; apply Nat.eqb_neq; lia).
    rewrite andb_false_r, (errno_test st He), cstr_get_middle, Hnul.
    reflexivity. }
  split; [apply Hrun|].
  unfold ensurenum, bind. rewrite Hrun. reflexivity.
Qed.

Lemma str2ull_trailing_text_witness :
  str2ull (Some (cs "ff" ++ "h"%char :: cs "ex")) (Some 0) 16 initial
  = Return ((INCOMPLETE, Some (numeral_value 16 (cs "ff"))), initial)
  /\ ensurenum 0 (Some (cs "ff" ++ "h"%char :: cs "ex")) None 16 initial
     = Exit 1 (NotValidNumber (Some (cs "ff" ++ "h"%char :: cs "ex")) 16).
Proof.
  apply (str2ull_trailing_text 16 (cs "ff") "h"%char (cs "ex") 0 0 initial).
  - lia.
  - reflexivity.
  - vm_compute. discriminate.
  - reflexivity.
  - reflexivity.
  - intros _ E. discriminate E.
  - vm_compute. discriminate.
Defined.

(** Text that starts with a character that is neither white space, nor a
    sign, nor a digit of the base: nothing is converted, [str2ull] returns
    [FAILURE] and changes nothing, whatever [errno] holds, and [ensurenum]
    stops the program with status 1. *)
Theorem str2ull_no_digits B c rest n temp st :
  2 <= B <= 36 ->
  is_nul c = false ->
  Libc.isspace c = false ->
  c <> "-"%char -> c <> "+"%char ->
  is_digit B c = false ->
  str2ull (Some (c :: rest)) (Some n) B st = Return ((FAILURE, Some n), st)
  /\ ensurenum temp (Some (c :: rest)) None B st
     = Exit 1 (NotValidNumber (Some (c :: rest)) B).
Proof.
  intros HB Hnul Hsp Hm Hp Hc.
  assert (Hconv : Libc.strtoull (c :: rest) B = Some (Libc.Conversion 0 0 false)).
  { unfold Libc.strtoull.
    replace ((B <? 0) || (B =? 1) || (36 <? B)) with false
      by (symmetry; repeat (apply orb_false_intro);
          [apply Z.ltb_ge | apply Z.eqb_neq | apply Z.ltb_ge]; lia).
    simpl Libc.skip_spaces. rewrite Hsp. rewrite drop_0.
    unfold Libc.scan_sign.
    destruct (Ascii.eqb_spec c "-") as [E|_]; [contradiction|].
    destruct (Ascii.eqb_spec c "+") as [E|_]; [contradiction|].
    rewrite drop_0. unfold Libc.scan_prefix.
    destruct (Ascii.eqb_spec c "0") as [->|_].
    { exfalso. unfold is_digit in Hc. simpl in Hc.
      apply Z.ltb_ge in Hc. lia. }
    destruct (Z.eqb_spec B 0) as [E|_]; [lia|].
    rewrite drop_0. simpl Libc.scan_digits.
    rewrite (digit_in_none B c Hc). reflexivity. }
  assert (Hrun : forall m, str2ull (Some (c :: rest)) (Some m) B st
                           = Return ((FAILURE, Some m), st)).
  { intros m. exact (str2ull_converted (c :: rest) m B st _ Hnul Hconv). }
  split; [apply Hrun|].
  unfold ensurenum, bind. rewrite Hrun. reflexivity.
Qed.

Lemma str2ull_no_digits_witness :
  str2ull (Some ("9"%char :: cs "1")) (Some 5) 8 (set_errno Libc.ERANGE initial)
  = Return ((FAILURE, Some 5), set_errno Libc.ERANGE initial)
  /\ ensurenum 0 (Some ("9"%char :: cs "1")) None 8 (set_errno Libc.ERANGE initial)
     = Exit 1 (NotValidNumber (Some ("9"%char :: cs "1")) 8).
Proof.
  apply (str2ull_no_digits 8 "9"%char (cs "1") 5 0 (set_errno Libc.ERANGE initial)).
  - lia.
  - reflexivity.
  - reflexivity.
  - discriminate.
  - discriminate.
  - reflexivity.
Defined.

(** White space in front and a plus sign are skipped: the text is accepted
    with the value of the numeral alone. *)
Theorem str2ull_space_and_plus B ws sg D n st :
  2 <= B <= 36 ->
  forallb Libc.isspace ws = true ->
  sign_minus sg = false ->
  is_numeral B D = true ->
  numeral_value B D <= ULLONG_MAX ->
  errno st <> Libc.ERANGE ->
  str2ull (Some (ws ++ sign_text sg ++ D)) (Some n) B st
  = Return ((SUCCESS, Some (numeral_value B D)), st).
Proof.
  intros HB Hws Hsg HD Hfit He.
  pose proof (str2ull_signed B B ws sg D n st (or_intror HB) ltac:(lia)
                Hws (scan_prefix_numeral B D HB HD) HD Hfit He) as Hrun.
  rewrite Hsg in Hrun. exact Hrun.
Qed.

Lemma str2ull_space_and_plus_witness :
  str2ull (Some (cs " " ++ sign_text Plus ++ cs "42")) (Some 0) 10 initial
  = Return ((SUCCESS, Some (numeral_value 10 (cs "42"))), initial).
Proof.
  apply (str2ull_space_and_plus 10 (cs " ") Plus (cs "42") 0 initial).
  - lia.
  - reflexivity.
  - reflexivity.
  - reflexivity.
  - vm_compute. discriminate.
  - vm_compute. discriminate.
Defined.

(** ** [ensurenum] *)

Lemma str2ull_defined s n b st :
  b = 0 \/ 2 <= b <= 36 ->
  exists c n' st', str2ull s n b st = Return ((c, n'), st').
Proof.
  intros Hb. unfold str2ull.
  destruct s as [s|]; [|unfold ret; eauto].
  destruct n as [n|]; [|unfold ret; eauto].
  destruct (is_nul (cstr_get s 0)); [unfold ret; eauto|].
  unfold bind, call_strtoull.
  destruct (strtoull_defined s b Hb) as (r & -> & _).
  unfold bind, modify, ret, get_errno.
  destruct (Libc.conv_erange r);
    destruct ((Libc.conv_value r =? 0) && Nat.eqb (Libc.conv_end r) 0);
    eauto;
    match goal with
    | |- context [errno ?x =? _] => destruct (errno x =? Libc.ERANGE)
    end; eauto.
Qed.

(** How a call of [ensurenum] with a null [n] ends when the base is one
    [strtoull] takes: it stops the program with status 1, or returns a value
    and leaves [info] alone. *)
Lemma ensurenum_outcome temp s b st :
  b = 0 \/ 2 <= b <= 36 ->
  (exists d, ensurenum temp s None b st = Exit 1 d)
  \/ (exists v st', ensurenum temp s None b st = Return (v, st')
        /\ info st' = info st
        /\ (0 <= temp <= ULLONG_MAX -> 0 <= v <= ULLONG_MAX)).
Proof.
  intros Hb. unfold ensurenum, bind.
  destruct (str2ull_defined s (Some temp) b st Hb) as (c & n' & st' & Hrun).
  rewrite Hrun.
  destruct (str2ull_cases _ _ _ _ _ _ _ Hrun) as (Hi & _ & Hc).
  destruct Hc as [[Hbad ->]|(Hgood & _ & v & -> & Hv)].
  - destruct Hbad as [-> | [-> | ->]]; unfold errx, ret; eauto 10.
  - destruct Hgood as [-> | ->]; unfold errx, ret; eauto 10.
Qed.

(** For a string that does not start with the terminator, what [ensurenum]
    does is the same whatever its local [temp] holds: the indeterminate
    value can only come out for an empty or a null string. *)
Theorem ensurenum_ignores_temp temp temp' s b st :
  is_nul (cstr_get s 0) = false ->
  ensurenum temp (Some s) None b st = ensurenum temp' (Some s) None b st.
Proof.
  intros Hs. unfold ensurenum, bind, str2ull. rewrite Hs.
  unfold bind, call_strtoull.
  destruct (Libc.strtoull s b) as [r|]; [|reflexivity].
  unfold bind, modify, ret, get_errno.
  destruct (Libc.conv_erange r);
    destruct ((Libc.conv_value r =? 0) && Nat.eqb (Libc.conv_end r) 0);
    try reflexivity;
    match goal with
    | |- context [errno ?x =? _] => destruct (errno x =? Libc.ERANGE)
    end; reflexivity.
Qed.

Lemma ensurenum_ignores_temp_witness :
  ensurenum 1 (Some (cs "x12")) None 10 initial
  = ensurenum 2 (Some (cs "x12")) None 10 initial.
Proof.
  apply (ensurenum_ignores_temp 1 2 (cs "x12") 10 initial).
  reflexivity.
Defined.

(** ** The options *)

Lemma bind_assoc {A B C} (m : prog A) (f : A -> prog B) (g : B -> prog C) st :
  bind (bind m f) g st = bind m (fun a => bind (f a) g) st.
Proof. unfold bind. destruct (m st) as [[a st1]| |]; reflexivity. Qed.

Lemma bind_ext {A B} (m : prog A) (f g : A -> prog B) st :
  (forall a st', f a st' = g a st') -> bind m f st = bind m g st.
Proof.
  intros H. unfold bind. destruct (m st) as [[a st1]| |]; [apply H | | ]; reflexivity.
Qed.

Lemma parseopts_loop_app temp opts1 opts2 st :
  parseopts_loop temp (opts1 ++ opts2) st
  = (parseopts_loop temp opts1 ;; parseopts_loop temp opts2) st.
Proof.
  revert st. induction opts1 as [|o opts1 IH]; intros st; simpl app.
  - reflexivity.
  - destruct o as [|optarg| |]; try reflexivity.
    cbn [parseopts_loop]. rewrite bind_assoc.
    apply bind_ext. intros _ st1. apply IH.
Qed.

Lemma case_b_outcome temp optarg st :
  (exists d, case_b temp optarg st = Exit 1 d)
  \/ (exists st', case_b temp optarg st = Return (tt, st')
        /\ num (info st') = num (info st)
        /\ 2 <= base (info st') <= 36).
Proof.
  unfold case_b, bind.
  destruct (ensurenum_outcome temp (Some optarg) 10 st ltac:(lia))
    as [[d ->]|(v & st1 & -> & Hi & _)]; [eauto|].
  unfold ensurebase, errx, ret, modify.
  destruct (Z.ltb_spec (int_of_ull v) 2); simpl; [eauto|].
  destruct (Z.ltb_spec 36 (int_of_ull v)); simpl; [eauto|].
  right. eexists. split; [reflexivity|]. simpl. rewrite Hi. split; [reflexivity|lia].
Qed.

Lemma parseopts_loop_outcome temp opts : forall st,
  (exists c d, parseopts_loop temp opts st = Exit c d /\ (c = 0 \/ c = 1))
  \/ (exists st', parseopts_loop temp opts st = Return (tt, st')
        /\ num (info st') = num (info st)
        /\ (base (info st') = base (info st) \/ 2 <= base (info st') <= 36)).
Proof.
  induction opts as [|o opts IH]; intros st.
  - right. exists st. auto.
  - destruct o as [|optarg| |]; cbn [parseopts_loop]; unfold help, errx;
      try (left; eauto 10; fail).
    unfold bind.
    destruct (case_b_outcome temp optarg st) as [[d ->]|(st1 & -> & Hn & Hb)];
      [left; eauto 10|].
    destruct (IH st1) as [(c & d & -> & Hc)|(st' & -> & Hn' & Hb')];
      [left; eauto 10|].
    right. exists st'. split; [reflexivity|]. split; [congruence|].
    right. destruct Hb' as [->|Hb']; assumption.
Qed.

(** The option loop never writes [info.num], and the only values it ever
    puts into [info.base] are bases from 2 to 36: a base outside that range
    cannot reach the conversion of the operand through [-b]. *)
Theorem parseopts_loop_keeps_base_valid temp opts st st' :
  parseopts_loop temp opts st = Return (tt, st') ->
  num (info st') = num (info st)
  /\ (base (info st') = base (info st) \/ 2 <= base (info st') <= 36).
Proof.
  intros Hrun.
  destruct (parseopts_loop_outcome temp opts st)
    as [(c & d & Hexit & _)|(st1 & Hret & Hn & Hb)].
  - rewrite Hexit in Hrun. discriminate Hrun.
  - rewrite Hret in Hrun. injection Hrun as <-. auto.
Qed.

Lemma parseopts_loop_keeps_base_valid_witness :
  num (info (set_base 16 initial)) = num (info initial)
  /\ (base (info (set_base 16 initial)) = base (info initial)
      \/ 2 <= base (info (set_base 16 initial)) <= 36).
Proof.
  apply (parseopts_loop_keeps_base_valid 0
           [OptBase (cs "8"); OptBase (cs "16")] initial (set_base 16 initial)).
  vm_compute. reflexivity.
Defined.

Lemma int_of_ull_small b : 0 <= b < 2 ^ 31 -> int_of_ull b = b.
Proof.
  intros Hb. unfold int_of_ull.
  rewrite Z.mod_small by lia.
  destruct (Z.ltb_spec b (2 ^ 31)); [reflexivity | lia].
Qed.

Lemma case_b_numeral temp D st :
  is_numeral 10 D = true ->
  numeral_value 10 D <= ULLONG_MAX ->
  errno st <> Libc.ERANGE ->
  case_b temp D st
  = (do b <- ensurebase (int_of_ull (numeral_value 10 D));
     modify (set_base b)) st.
Proof.
  intros HD Hfit He. unfold case_b at 1. unfold bind at 1.
  rewrite (ensurenum_numeral temp 10 D st ltac:(lia) HD Hfit He). reflexivity.
Qed.

Lemma case_b_accepts temp D st :
  is_numeral 10 D = true ->
  numeral_value 10 D <= ULLONG_MAX ->
  2 <= int_of_ull (numeral_value 10 D) <= 36 ->
  errno st <> Libc.ERANGE ->
  case_b temp D st = Return (tt, set_base (int_of_ull (numeral_value 10 D)) st).
Proof.
  intros HD Hfit Hr He. rewrite (case_b_numeral temp D st HD Hfit He).
  unfold bind, ensurebase.
  destruct (Z.ltb_spec (int_of_ull (numeral_value 10 D)) 2); [lia|].
  destruct (Z.ltb_spec 36 (int_of_ull (numeral_value 10 D))); [lia|].
  reflexivity.
Qed.

(** When [-b] is given more than once, the last one decides: whatever bases
    the earlier options set, after one more [-b] with an acceptable value
    [info.base] is that value. *)
Theorem last_base_option_wins temp opts D st st1 :
  parseopts_loop temp opts st = Return (tt, st1) ->
  errno st <> Libc.ERANGE ->
  is_numeral 10 D = true ->
  numeral_value 10 D <= ULLONG_MAX ->
  2 <= int_of_ull (numeral_value 10 D) <= 36 ->
  parseopts_loop temp (opts ++ [OptBase D]) st
  = Return (tt, set_base (int_of_ull (numeral_value 10 D)) st1)
  /\ base (info (set_base (int_of_ull (numeral_value 10 D)) st1))
     = int_of_ull (numeral_value 10 D).
Proof.
  intros Hrun He HD Hfit Hr. split; [|reflexivity].
  rewrite parseopts_loop_app. unfold bind at 1. rewrite Hrun.
  cbn [parseopts_loop]. unfold bind.
  rewrite (case_b_accepts temp D st1 HD Hfit Hr
             (parseopts_loop_errno temp opts st st1 He Hrun)).
  reflexivity.
Qed.

Lemma last_base_option_wins_witness :
  parseopts_loop 0 ([OptBase (cs "8")] ++ [OptBase (cs "16")]) initial
  = Return (tt, set_base (int_of_ull (numeral_value 10 (cs "16")))
                  (set_base 8 initial))
  /\ base (info (set_base (int_of_ull (numeral_value 10 (cs "16")))
                   (set_base 8 initial)))
     = int_of_ull (numeral_value 10 (cs "16")).
Proof.
  apply (last_base_option_wins 0 [OptBase (cs "8")] (cs "16") initial
           (set_base 8 initial)).
  - vm_compute. reflexivity.
  - vm_compute. discriminate.
  - reflexivity.
  - vm_compute. discriminate.
  - vm_compute. split; discriminate.
Defined.

(** How [-b] refuses a number: a value beyond the [unsigned long long] range
    ends the program with the too-large diagnostic; a value that fits but
    whose conversion to [int] is outside 2..36 ends it with the
    unsupported-base diagnostic, which shows the converted value. *)
Theorem base_option_refused temp D st :
  is_numeral 10 D = true ->
  (ULLONG_MAX < numeral_value 10 D ->
   case_b temp D st = Exit 1 (TooLargeNumber (Some D)))
  /\ (numeral_value 10 D <= ULLONG_MAX ->
      errno st <> Libc.ERANGE ->
      ~ 2 <= int_of_ull (numeral_value 10 D) <= 36 ->
      case_b temp D st
      = Exit 1 (UnsupportedBase (int_of_ull (numeral_value 10 D)))).
Proof.
  intros HD. split.
  - intros Hov. unfold case_b, bind, ensurenum, bind.
    rewrite (str2ull_too_large 10 D temp st ltac:(lia) HD Hov). reflexivity.
  - intros Hfit He Hout. rewrite (case_b_numeral temp D st HD Hfit He).
    unfold bind, ensurebase, errx.
    destruct (Z.ltb_spec (int_of_ull (numeral_value 10 D)) 2); [reflexivity|].
    destruct (Z.ltb_spec 36 (int_of_ull (numeral_value 10 D))); [reflexivity|].
    lia.
Qed.

Lemma base_option_refused_witness :
  (ULLONG_MAX < numeral_value 10 (cs "37") ->
   case_b 0 (cs "37") initial = Exit 1 (TooLargeNumber (Some (cs "37"))))
  /\ (numeral_value 10 (cs "37") <= ULLONG_MAX ->
      errno initial <> Libc.ERANGE ->
      ~ 2 <= int_of_ull (numeral_value 10 (cs "37")) <= 36 ->
      case_b 0 (cs "37") initial
      = Exit 1 (UnsupportedBase (int_of_ull (numeral_value 10 (cs "37"))))).
Proof.
  apply (base_option_refused 0 (cs "37") initial).
  reflexivity.
Defined.

(** ** Base 0: the base is read off the text *)

Lemma scan_prefix_octal D :
  is_numeral 8 D = true -> head D = Some "0"%char ->
  Libc.scan_prefix 0 D = (8, O).
Proof.
  intros HD Hz. destruct D as [|d D]; [discriminate HD|].
  injection Hz as ->. unfold Libc.scan_prefix.
  change (Ascii.eqb "0" "0") with true. cbv iota.
  change ((0 =? 0) || (0 =? 16)) with true. simpl andb.
  destruct (Libc.is_x (cstr_get D 0)) eqn:Ex; [|reflexivity].
  exfalso. destruct D as [|d' D]; [discriminate Ex|].
  change (Libc.is_x d' = true) in Ex.
  pose proof (is_numeral_all _ _ HD) as Hall. cbn [forallb] in Hall.
  apply andb_prop in Hall as [_ Hall]. apply andb_prop in Hall as [Hd' _].
  destruct (is_digit_value 8 d' Hd') as (v & Hv & Hr).
  destruct (digit_char d' v Hv) as (_ & _ & _ & _ & Hx' & _).
  specialize (Hx' Ex). lia.
Qed.

(** A zero, an [x] and a hexadecimal numeral, with base 0 or 16. *)
Lemma strtoull_hex B0 x H :
  B0 = 0 \/ B0 = 16 ->
  Libc.is_x x = true ->
  is_numeral 16 H = true ->
  Libc.strtoull ("0"%char :: x :: H) B0
  = let v := numeral_value 16 H in
    let e := (0 + 0 + 2 + length H)%nat in
    Some (if ULLONG_MAX <? v then Libc.Conversion ULLONG_MAX e true
          else Libc.Conversion v e false).
Proof.
  intros HB0 Hx HH. unfold Libc.strtoull.
  replace ((B0 <? 0) || (B0 =? 1) || (36 <? B0)) with false
    by (symmetry; repeat (apply orb_false_intro);
        [apply Z.ltb_ge | apply Z.eqb_neq | apply Z.ltb_ge]; lia).
  change (Libc.skip_spaces ("0"%char :: x :: H)) with O. rewrite drop_0.
  change (Libc.scan_sign ("0"%char :: x :: H)) with (false, O).
  cbv iota. rewrite drop_0.
  assert (Hpx : Libc.scan_prefix B0 ("0"%char :: x :: H) = (16, 2%nat)).
  { unfold Libc.scan_prefix. change (Ascii.eqb "0" "0") with true. cbv iota.
    change (cstr_get (x :: H) 0) with x. rewrite Hx.
    destruct HB0 as [-> | ->]; reflexivity. }
  rewrite Hpx. change (drop 2 ("0"%char :: x :: H)) with H.
  rewrite (scan_digits_all 16 H 0 (is_numeral_all 16 H HH)).
  fold (numeral_value 16 H).
  pose proof (is_numeral_length 16 H HH) as Hl.
  destruct (length H) as [|k] eqn:El; [lia|].
  cbv zeta. destruct (ULLONG_MAX <? numeral_value 16 H); reflexivity.
Qed.

Lemma str2ull_hex B0 x H n st :
  B0 = 0 \/ B0 = 16 ->
  Libc.is_x x = true ->
  is_numeral 16 H = true ->
  numeral_value 16 H <= ULLONG_MAX ->
  errno st <> Libc.ERANGE ->
  str2ull (Some ("0"%char :: x :: H)) (Some n) B0 st
  = Return ((SUCCESS, Some (numeral_value 16 H)), st).
Proof.
  intros HB0 Hx HH Hfit He.
  refine (eq_trans (str2ull_converted ("0"%char :: x :: H) n B0 st _ eq_refl
                      (strtoull_hex B0 x H HB0 Hx HH)) _).
  cbv zeta.
  destruct (Z.ltb_spec ULLONG_MAX (numeral_value 16 H)) as [Hov|_]; [lia|].
  cbn [Libc.conv_erange Libc.conv_value Libc.conv_end].
  rewrite andb_false_r, (errno_test st He).
  change (0 + 0 + 2 + length H)%nat with (length ("0"%char :: x :: H)).
  rewrite cstr_get_end. reflexivity.
Qed.

Lemma str2ull_auto text B D n st :
  auto_numeral text = Some (B, D) ->
  numeral_value B D <= ULLONG_MAX ->
  errno st <> Libc.ERANGE ->
  str2ull (Some text) (Some n) 0 st
  = Return ((SUCCESS, Some (numeral_value B D)), st).
Proof.
  intros Hread Hfit He. unfold auto_numeral in Hread.
  destruct text as [|z rest]; [discriminate Hread|].
  destruct (Ascii.eqb_spec z "0") as [->|Hz].
  - destruct rest as [|x H].
    + injection Hread as <- <-.
      exact (str2ull_signed 0 8 [] NoSign ["0"%char] n st (or_introl eq_refl)
               ltac:(lia) eq_refl eq_refl eq_refl Hfit He).
    + destruct (Libc.is_x x && is_numeral 16 H) eqn:E.
      * apply andb_prop in E as [Hx HH]. injection Hread as <- <-.
        exact (str2ull_hex 0 x H n st (or_introl eq_refl) Hx HH Hfit He).
      * destruct (is_numeral 8 ("0"%char :: x :: H)) eqn:E8; [|discriminate Hread].
        injection Hread as <- <-.
        exact (str2ull_signed 0 8 [] NoSign _ n st (or_introl eq_refl)
                 ltac:(lia) eq_refl (scan_prefix_octal _ E8 eq_refl) E8 Hfit He).
  - destruct (is_numeral 10 (z :: rest)) eqn:E10; [|discriminate Hread].
    injection Hread as <- <-.
    assert (Hhead : head (z :: rest) <> Some "0"%char)
      by (intros E; injection E as E; contradiction).
    exact (str2ull_signed 0 10 [] NoSign _ n st (or_introl eq_refl)
             ltac:(lia) eq_refl (scan_prefix_decimal _ E10 Hhead) E10 Hfit He).
Qed.

(** ** [num2bin]: where it writes *)

(** [num2bin] fills the array from the end: the terminator goes to
    [buf[n-1]], the digits of the binary numeral stand right in front of
    it, and the pointer returned is [n - 1] minus the number of digits.  The
    length of the array and every character in front of the digits or from
    [buf[n]] on are left as they were. *)
Theorem num2bin_writes_at_end v (buf : list ascii) n :
  0 <= v <= ULLONG_MAX ->
  sigbits v + 1 <= n ->
  n <= Z.of_nat (length buf) ->
  n <= SIZE_MAX ->
  exists buf',
    num2bin v buf n = Done (buf', Ptr (n - 1 - sigbits v))
    /\ buf' = take (Z.to_nat (n - 1 - sigbits v)) buf
                ++ to_binary v ++ NUL :: drop (Z.to_nat n) buf
    /\ take (Z.to_nat (sigbits v)) (drop (Z.to_nat (n - 1 - sigbits v)) buf')
       = to_binary v
    /\ length buf' = length buf
    /\ take (Z.to_nat (n - 1 - sigbits v)) buf'
       = take (Z.to_nat (n - 1 - sigbits v)) buf
    /\ drop (Z.to_nat n) buf' = drop (Z.to_nat n) buf
    /\ buf' !! Z.to_nat (n - 1) = Some NUL.
Proof.
  intros Hv Hn Hlen Hmax.
  pose proof (sigbits_bound v Hv) as Hb.
  pose proof (to_binary_length v (proj1 Hv)) as Hd.
  rewrite (num2bin_fits v buf n Hv Hn Hlen Hmax).
  eexists. split; [reflexivity|]. split; [reflexivity|].
  set (pre := take (Z.to_nat (n - 1 - sigbits v)) buf).
  set (post := drop (Z.to_nat n) buf).
  assert (Hpre : length pre = Z.to_nat (n - 1 - sigbits v))
    by (unfold pre; rewrite length_take; lia).
  assert (Hpost : (length post = length buf - Z.to_nat n)%nat)
    by (unfold post; apply length_drop).
  repeat split.
  - rewrite drop_app_length' by (symmetry; exact Hpre).
    apply take_app_length'. lia.
  - rewrite !length_app. simpl length. lia.
  - rewrite take_app_length' by (symmetry; exact Hpre). reflexivity.
  - replace (pre ++ to_binary v ++ NUL :: post)
      with ((pre ++ to_binary v ++ [NUL]) ++ post)
      by (rewrite <- !app_assoc; reflexivity).
    apply drop_app_length'. rewrite !length_app. simpl length. lia.
  - rewrite app_assoc. apply list_lookup_middle.
    rewrite length_app. lia.
Qed.

Lemma num2bin_writes_at_end_witness :
  exists buf',
    num2bin 6 (buffer 8) 6 = Done (buf', Ptr (6 - 1 - sigbits 6))
    /\ buf' = take (Z.to_nat (6 - 1 - sigbits 6)) (buffer 8)
                ++ to_binary 6 ++ NUL :: drop (Z.to_nat 6) (buffer 8)
    /\ take (Z.to_nat (sigbits 6)) (drop (Z.to_nat (6 - 1 - sigbits 6)) buf')
       = to_binary 6
    /\ length buf' = length (buffer 8)
    /\ take (Z.to_nat (6 - 1 - sigbits 6)) buf'
       = take (Z.to_nat (6 - 1 - sigbits 6)) (buffer 8)
    /\ drop (Z.to_nat 6) buf' = drop (Z.to_nat 6) (buffer 8)
    /\ buf' !! Z.to_nat (6 - 1) = Some NUL.
Proof.
  apply (num2bin_writes_at_end 6 (buffer 8) 6).
  - unfold ULLONG_MAX. lia.
  - vm_compute. discriminate.
  - simpl. lia.
  - unfold SIZE_MAX. lia.
Defined.

(** ** [main] *)

(** Once [parseopts] has returned, [main] prints: with its array of 1024
    characters [num2bin] always has room, and the string shown is the
    binary numeral of [info.num]. *)
Lemma main_prints temp buf argv1 opts operand st st' :
  length buf = 1024%nat ->
  parseopts temp opts operand (set_base 0 st) = Return (tt, st') ->
  0 <= num (info st') <= ULLONG_MAX ->
  main temp buf argv1 opts operand st
  = Return (Report (num (info st')) (to_binary (num (info st'))), st').
Proof.
  intros Hlen Hparse Hv.
  pose proof (sigbits_bound _ Hv) as Hb.
  destruct (num2bin_string (num (info st')) buf 1024 Hv) as (buf' & res & Hrun & Hstr);
    [lia | rewrite Hlen; lia | unfold SIZE_MAX; lia |].
  unfold main, bind, modify. rewrite Hparse. cbv zeta. rewrite Hrun.
  destruct res as [|ofs]; [discriminate Hstr|]. rewrite Hstr. reflexivity.
Qed.

Lemma main_exits temp buf argv1 opts operand st c d :
  parseopts temp opts operand (set_base 0 st) = Exit c d ->
  main temp buf argv1 opts operand st = Exit c d.
Proof. intros H. unfold main, bind, modify. rewrite H. reflexivity. Qed.

Lemma parseopts_outcome temp opts operand st :
  base (info st) = 0 \/ 2 <= base (info st) <= 36 ->
  (exists c d, parseopts temp opts operand st = Exit c d /\ (c = 0 \/ c = 1))
  \/ (exists st', parseopts temp opts operand st = Return (tt, st')
        /\ operand <> None
        /\ (0 <= temp <= ULLONG_MAX -> 0 <= num (info st') <= ULLONG_MAX)).
Proof.
  intros Hbase. unfold parseopts, bind.
  destruct (parseopts_loop_outcome temp opts st)
    as [(c & d & -> & Hc)|(st1 & -> & _ & Hb)]; [left; eauto|].
  destruct operand as [s|]; [|left; unfold help, errx; eauto].
  unfold get_base.
  assert (Hb1 : base (info st1) = 0 \/ 2 <= base (info st1) <= 36)
    by (destruct Hb as [->|Hb]; auto).
  destruct (ensurenum_outcome temp (Some s) (base (info st1)) st1 Hb1)
    as [[d ->]|(v & st2 & -> & _ & Hv)]; [left; eauto|].
  right. eexists. split; [reflexivity|]. split; [discriminate|].
  exact Hv.
Qed.

(** Every run of [main] ends in one of two ways: the process leaves with
    status 0 or 1, or one line is printed whose binary field is the minimal
    binary numeral of the very number shown in decimal, a number of the
    [unsigned long long] range; and nothing is printed without an operand.
    (The local [temp] of [ensurenum] is taken to hold some [unsigned long
    long].) *)
Theorem main_outcome temp buf argv1 opts operand st :
  length buf = 1024%nat ->
  0 <= temp <= ULLONG_MAX ->
  (exists c d, main temp buf argv1 opts operand st = Exit c d /\ (c = 0 \/ c = 1))
  \/ (exists v st',
        main temp buf argv1 opts operand st
        = Return (Report v (to_binary v), st')
        /\ 0 <= v <= ULLONG_MAX
        /\ num (info st') = v
        /\ operand <> None).
Proof.
  intros Hlen Htemp.
  destruct (parseopts_outcome temp opts operand (set_base 0 st) (or_introl eq_refl))
    as [(c & d & Hexit & Hc)|(st' & Hret & Hop & Hv)].
  - left. exists c, d. split; [|exact Hc]. apply main_exits, Hexit.
  - right. exists (num (info st')), st'.
    split; [apply main_prints; auto|]. auto.
Qed.

Lemma main_outcome_witness :
  (exists c d, main 0 (buffer 1024) None [OptBase (cs "7")] (Some (cs "66")) initial
               = Exit c d /\ (c = 0 \/ c = 1))
  \/ (exists v st',
        main 0 (buffer 1024) None [OptBase (cs "7")] (Some (cs "66")) initial
        = Return (Report v (to_binary v), st')
        /\ 0 <= v <= ULLONG_MAX
        /\ num (info st') = v
        /\ Some (cs "66") <> None).
Proof.
  apply (main_outcome 0 (buffer 1024) None [OptBase (cs "7")] (Some (cs "66")) initial).
  - reflexivity.
  - unfold ULLONG_MAX. lia.
Defined.

(** Without [-b] the operand is read with base 0, so its form decides the
    base: "0x" or "0X" and hexadecimal digits, a leading zero and octal
    digits, or decimal digits.  When the value fits, [main] prints it with
    its binary numeral and leaves it in [info.num]. *)
Theorem main_auto_base temp buf argv1 text B D st :
  length buf = 1024%nat ->
  auto_numeral text = Some (B, D) ->
  numeral_value B D <= ULLONG_MAX ->
  errno st <> Libc.ERANGE ->
  main temp buf argv1 [] (Some text) st
  = Return (Report (numeral_value B D) (to_binary (numeral_value B D)),
            set_num (numeral_value B D) (set_base 0 st)).
Proof.
  intros Hlen Hread Hfit He.
  pose proof (str2ull_auto text B D temp (set_base 0 st) Hread Hfit He) as Hrun.
  destruct (str2ull_cases _ _ _ _ _ _ _ Hrun) as (_ & _ & Hc).
  assert (Hv : 0 <= numeral_value B D <= ULLONG_MAX).
  { destruct Hc as [[[E|[E|E]] _]|(_ & _ & v & Ev & Hv)]; try discriminate E.
    injection Ev as ->. exact Hv. }
  assert (Hparse : parseopts temp [] (Some text) (set_base 0 st)
                   = Return (tt, set_num (numeral_value B D) (set_base 0 st))).
  { unfold parseopts, bind, get_base, ensurenum, bind. cbn [parseopts_loop ret].
    cbn [base info set_base]. rewrite Hrun. reflexivity. }
  exact (main_prints temp buf argv1 [] (Some text) st _ Hlen Hparse Hv).
Qed.

Lemma main_auto_base_witness :
  main 0 (buffer 1024) None [] (Some (cs "0x1F")) initial
  = Return (Report (numeral_value 16 (cs "1F"))
                   (to_binary (numeral_value 16 (cs "1F"))),
            set_num (numeral_value 16 (cs "1F")) (set_base 0 initial)).
Proof.
  apply (main_auto_base 0 (buffer 1024) None (cs "0x1F") 16 (cs "1F") initial).
  - reflexivity.
  - reflexivity.
  - vm_compute. discriminate.
  - vm_compute. discriminate.
Defined.

(** With one [-b] whose value is a base from 2 to 36, an operand that is a
    numeral of that base and fits is printed with its binary numeral, and
    [info] ends up holding the value and the base. *)
Theorem main_forced_base temp buf argv1 Db N st :
  length buf = 1024%nat ->
  is_numeral 10 Db = true ->
  2 <= numeral_value 10 Db <= 36 ->
  is_numeral (numeral_value 10 Db) N = true ->
  numeral_value (numeral_value 10 Db) N <= ULLONG_MAX ->
  errno st <> Libc.ERANGE ->
  main temp buf argv1 [OptBase Db] (Some N) st
  = Return (Report (numeral_value (numeral_value 10 Db) N)
                   (to_binary (numeral_value (numeral_value 10 Db) N)),
            State (Numinfo (numeral_value (numeral_value 10 Db) N)
                           (numeral_value 10 Db))
                  (errno st)).
Proof.
  intros Hlen HDb Hb HN Hfit He.
  set (b := numeral_value 10 Db) in *. set (v := numeral_value b N) in *.
  assert (Hnarrow : int_of_ull b = b) by (apply int_of_ull_small; lia).
  assert (Hv : 0 <= v)
    by (apply numeral_value_nonneg; [lia | apply is_numeral_all, HN]).
  assert (Hcase : case_b temp Db (set_base 0 st) = Return (tt, set_base b st)).
  { pose proof (case_b_accepts temp Db (set_base 0 st) HDb) as Hc.
    fold b in Hc. rewrite Hnarrow in Hc.
    apply Hc; [unfold ULLONG_MAX; lia | lia | exact He]. }
  assert (Hparse : parseopts temp [OptBase Db] (Some N) (set_base 0 st)
                   = Return (tt, set_num v (set_base b st))).
  { unfold parseopts. cbn [parseopts_loop]. unfold bind at 1. unfold bind at 1.
    rewrite Hcase. cbn [ret]. unfold bind, get_base. cbn [base info set_base].
    rewrite (ensurenum_numeral temp b N (set_base b st) Hb HN Hfit He).
    reflexivity. }
  exact (main_prints temp buf argv1 [OptBase Db] (Some N) st _ Hlen Hparse
           (conj Hv Hfit)).
Qed.

Lemma main_forced_base_witness :
  main 0 (buffer 1024) None [OptBase (cs "36")] (Some (cs "zz")) initial
  = Return (Report (numeral_value (numeral_value 10 (cs "36")) (cs "zz"))
                   (to_binary (numeral_value (numeral_value 10 (cs "36")) (cs "zz"))),
            State (Numinfo (numeral_value (numeral_value 10 (cs "36")) (cs "zz"))
                           (numeral_value 10 (cs "36")))
                  (errno initial)).
Proof.
  apply (main_forced_base 0 (buffer 1024) None (cs "36") (cs "zz") initial).
  - reflexivity.
  - reflexivity.
  - vm_compute. split; discriminate.
  - reflexivity.
  - vm_compute. discriminate.
  - vm_compute. discriminate.
Defined.

(** A numeral beyond the [unsigned long long] range stops the program in
    [ensurenum] with status 1 and the too-large diagnostic, whatever
    [errno] held before. *)
Theorem ensurenum_too_large temp B N st :
  2 <= B <= 36 ->
  is_numeral B N = true ->
  ULLONG_MAX < numeral_value B N ->
  ensurenum temp (Some N) None B st = Exit 1 (TooLargeNumber (Some N)).
Proof.
  intros HB HN Hov. unfold ensurenum, bind.
  rewrite (str2ull_too_large B N temp st HB HN Hov). reflexivity.
Qed.

Lemma ensurenum_too_large_witness :
  ensurenum 0 (Some (cs "18446744073709551616")) None 10 initial
  = Exit 1 (TooLargeNumber (Some (cs "18446744073709551616"))).
Proof.
  apply (ensurenum_too_large 0 10 (cs "18446744073709551616") initial).
  - lia.
  - reflexivity.
  - vm_compute. reflexivity.
Defined.

(** [-h] and [-v] end the program with status 0, and an option [getopt]
    does not know ends it with status 1, as soon as the options in front
    of them have been accepted: neither the options behind nor the operand,
    present or not, are looked at. *)
Theorem options_that_stop temp buf argv1 opts rest operand st st1 :
  parseopts_loop temp opts (set_base 0 st) = Return (tt, st1) ->
  main temp buf argv1 (opts ++ OptHelp :: rest) operand st = Exit 0 HelpText
  /\ main temp buf argv1 (opts ++ OptVersion :: rest) operand st
     = Exit 0 VersionText
  /\ main temp buf argv1 (opts ++ OptUnknown :: rest) operand st
     = Exit 1 UnrecognizedOption.
Proof.
  intros Hrun.
  repeat split; apply main_exits; unfold parseopts; unfold bind at 1;
    rewrite parseopts_loop_app; unfold bind at 1; rewrite Hrun; reflexivity.
Qed.

Lemma options_that_stop_witness :
  main 0 (buffer 1024) None ([OptBase (cs "2")] ++ OptHelp :: [OptUnknown])
       None initial = Exit 0 HelpText
  /\ main 0 (buffer 1024) None ([OptBase (cs "2")] ++ OptVersion :: [OptUnknown])
          None initial = Exit 0 VersionText
  /\ main 0 (buffer 1024) None ([OptBase (cs "2")] ++ OptUnknown :: [OptUnknown])
          None initial = Exit 1 UnrecognizedOption.
Proof.
  apply (options_that_stop 0 (buffer 1024) None [OptBase (cs "2")] [OptUnknown]
           None initial (set_base 2 initial)).
  vm_compute. reflexivity.
Defined.
